(** * novaconf.util.classinfo: dataclass introspection helpers

    A shallow embedding of [src/novaconf/util/classinfo.py] and the proofs of
    its specification.  The module wraps a dataclass in a [DataClassInfo]
    object that memoizes the list of field descriptors and a name-to-field
    dictionary, and answers queries on them.

    Python objects are dynamically typed: the objects that the module handles
    are embedded in one universe [value]; the instance attributes of
    [DataClassInfo] are a record that every method threads explicitly, and a
    raised exception keeps the attribute writes made before it. *)

From stdpp Require Import gmap strings list fin_maps.

Open Scope string_scope.
Open Scope list_scope.
#[local] Set Warnings "-clear-no-such-hyp".

(** ** Exceptions and outcomes *)

(** The exception classes that the module raises or lets through.  Messages
    are not modelled; [UserError] stands for whatever a user-supplied
    default factory raises. *)
Inductive exn : Type :=
| TypeError
| KeyError
| AttributeError
| UserError (kind : string).

(** Outcome of evaluating a Python expression. *)
Inductive result (A : Type) : Type :=
| Ok (a : A)
| Raise (e : exn).
Arguments Ok {A} a.
Arguments Raise {A} e.

Definition is_ok {A} (r : result A) : bool :=
  match r with Ok _ => true | Raise _ => false end.

#[global] Instance result_ret : MRet result := fun _ a => Ok a.
#[global] Instance result_bind : MBind result := fun _ _ k r =>
  match r with Ok a => k a | Raise e => Raise e end.

(** ** Python objects *)

(** [dataclasses.Field], over the universe of objects [V] of its attributes. *)
Record Field_ (V : Type) : Type := mkField {
  name : string;
  type_ : V;
  default : V;
  default_factory : V;
  metadata : list (string * V)
}.
Arguments mkField {V} _ _ _ _ _.
Arguments name {V} _.
Arguments type_ {V} _.
Arguments default {V} _.
Arguments default_factory {V} _.
Arguments metadata {V} _.

(** The moment of a call.  What a callable returns may depend on the state
    of the program when it is called (a counter, a clock, a fresh
    identifier), so two calls of one callable need not end alike; the
    module itself never reads that state. *)
Definition moment : Type := nat.

(** The objects the module meets: the [dataclasses.MISSING] sentinel, [None],
    plain data, plain instances of a class that is called with no argument
    (as [_MISSING_TYPE] is), functions of no argument, field descriptors,
    and classes, by name and by what calling them with no argument does
    ([list], [int] or a user's class are usual default factories). *)
#[local] Set Warnings "-register-all".
Inductive value : Type :=
| VMissing
| VNone
| VInt (z : Z)
| VStr (s : string)
| VObject (clsname : string)
| VCallable (body : moment -> result value)
| VField (f : Field_ value)
| VType (tyname : string) (new : moment -> result value).

Abbreviation Field := (Field_ value).
Abbreviation MISSING := VMissing.

(** [o is MISSING] and [o is None]: identity with a singleton. *)
Definition is_MISSING (o : value) : bool :=
  match o with VMissing => true | _ => false end.

Definition is_None (o : value) : bool :=
  match o with VNone => true | _ => false end.

(** Being the sentinel is decidable (objects in general hold functions and
    have no decidable equality). *)
#[global] Instance MISSING_dec (o : value) : Decision (o = VMissing).
Proof. destruct o; (by left) || (right; discriminate). Defined.

(** The built-in classes [int], [str] and [NoneType], and a class that
    takes no argument and makes plain instances. *)
Definition int_type : value := VType "int" (fun _ => Ok (VInt 0)).
Definition str_type : value := VType "str" (fun _ => Ok (VStr "")).
Definition NoneType : value := VType "NoneType" (fun _ => Ok VNone).
Definition plain_class (clsname : string) : value :=
  VType clsname (fun _ => Ok (VObject clsname)).
(** Classes whose call with no argument is a [TypeError]. *)
Definition class_with_arguments (clsname : string) : value :=
  VType clsname (fun _ => Raise TypeError).

(** [type(o)]: always a class, never the sentinel. *)
Definition type (o : value) : value :=
  match o with
  | VMissing => plain_class "_MISSING_TYPE"
  | VNone => NoneType
  | VInt _ => int_type
  | VStr _ => str_type
  | VObject clsname => plain_class clsname
  | VCallable _ => class_with_arguments "function"
  | VField _ => class_with_arguments "Field"
  | VType _ _ => class_with_arguments "type"
  end.

(** [o()]: calling an object with no argument, at some moment.  Functions
    and classes are callable; the other objects are not. *)
Definition call (now : moment) (o : value) : result value :=
  match o with
  | VCallable body => body now
  | VType _ new => new now
  | _ => Raise TypeError
  end.

(** Attribute access on an object expected to be a [Field]. *)
Definition as_Field (o : value) : result Field :=
  match o with
  | VField f => Ok f
  | _ => Raise AttributeError
  end.

(** A class definition, as far as the module observes it: [__name__] and
    [__dataclass_fields__] (absent when the class is not a dataclass; the
    list holds the true fields, in declaration order). *)
Record classdef : Type := mkClass {
  dunder_name : string;
  dunder_dataclass_fields : option (list Field)
}.

(** What a caller can pass as [cls]: a class, or an instance of a class. *)
Inductive pyobject : Type :=
| PyClass (c : classdef)
| PyInstance (c : classdef).

Definition class_of (o : pyobject) : classdef :=
  match o with PyClass c => c | PyInstance c => c end.

(** [dataclasses.is_dataclass(obj)]: looks at the class, or at the class of
    an instance. *)
Definition is_dataclass (obj : pyobject) : bool :=
  match dunder_dataclass_fields (class_of obj) with
  | Some _ => true
  | None => false
  end.

(** [dataclasses.fields(class_or_instance)]. *)
Definition dataclasses_fields (obj : pyobject) : result (list Field) :=
  match dunder_dataclass_fields (class_of obj) with
  | Some fs => Ok fs
  | None => Raise TypeError
  end.

(** [obj.__name__]: classes have one, instances do not. *)
Definition getattr_name (obj : pyobject) : result string :=
  match obj with
  | PyClass c => Ok (dunder_name c)
  | PyInstance _ => Raise AttributeError
  end.

(** ** Module-level functions *)

Definition is_missing (o : value) : bool :=
  is_MISSING o || is_MISSING (type o).

Definition field_has_default (field : Field) : bool :=
  negb (is_missing (default field)) || negb (is_missing (default_factory field)).

Definition field_default_value (now : moment) (field : Field) : result value :=
  if negb (is_missing (default field)) then Ok (default field)
  else if negb (is_missing (default_factory field))
       then call now (default_factory field)
  else Ok MISSING.

(** ** The [DataClassInfo] class *)

(** Instance attributes: [_cls], [_fieldmap] ([None] or a dict), and the
    entry ["fields"] of the instance [__dict__], where [cached_property]
    memoizes the result of [fields] ([None] here: no such entry). *)
Record DataClassInfo : Type := mkInfo {
  _cls : pyobject;
  _fieldmap : option (gmap string Field);
  dict_fields : option (list Field)
}.

(** A method body: it reads and writes the instance, and returns or raises;
    the instance written so far survives a raise. *)
Definition M (A : Type) : Type := DataClassInfo -> result A * DataClassInfo.

#[global] Instance M_ret : MRet M := fun _ a self => (Ok a, self).
#[global] Instance M_bind : MBind M := fun _ _ k m self =>
  match m self with
  | (Ok a, self') => k a self'
  | (Raise e, self') => (Raise e, self')
  end.

Definition raise {A} (e : exn) : M A := fun self => (Raise e, self).

Definition lift {A} (r : result A) : M A := fun self => (r, self).

Definition getattr {A} (proj : DataClassInfo -> A) : M A :=
  fun self => (Ok (proj self), self).

Definition set_cls_attr (c : pyobject) : M unit := fun self =>
  (Ok tt, mkInfo c (_fieldmap self) (dict_fields self)).

Definition set_fieldmap_attr (m : option (gmap string Field)) : M unit := fun self =>
  (Ok tt, mkInfo (_cls self) m (dict_fields self)).

Definition set_dict_fields (fs : list Field) : M unit := fun self =>
  (Ok tt, mkInfo (_cls self) (_fieldmap self) (Some fs)).

(** [del self.fields]: [cached_property] defines no [__delete__], so the
    entry is removed from the instance [__dict__], and its absence is an
    [AttributeError]. *)
Definition del_fields : M unit := fun self =>
  match dict_fields self with
  | Some _ => (Ok tt, mkInfo (_cls self) (_fieldmap self) None)
  | None => (Raise AttributeError, self)
  end.

(** [DataClassInfo(cls)]. *)
Definition __init__ (cls : pyobject) : result DataClassInfo :=
  if negb (is_dataclass cls) then Raise TypeError
  else Ok (mkInfo cls None None).

(** The [cls] property. *)
Definition cls : M pyobject := getattr _cls.

(** The [cls] setter. *)
Definition cls_setter (c : pyobject) : M unit :=
  set_cls_attr c ;;
  del_fields ;;
  set_fieldmap_attr None.

(** The [name] property ([name] itself is the attribute of [Field]). *)
Definition name_ : M string :=
  c ← getattr _cls; lift (getattr_name c).

(** The dict comprehension [{field.name: field for field in fields}]: a later
    field replaces an earlier one of the same name. *)
Definition dict_setitem (d : gmap string Field) (field : Field) :
    gmap string Field :=
  <[name field := field]> d.

Definition dict_by_name (fields : list Field) : gmap string Field :=
  foldl dict_setitem ∅ fields.

(** The function that [cached_property] wraps. *)
Definition fields_body : M (list Field) :=
  c ← cls;
  fields ← lift (dataclasses_fields c);
  set_fieldmap_attr (Some (dict_by_name fields)) ;;
  mret fields.

(** The [fields] cached property: the memoized list when the instance
    [__dict__] has it, else the body is run and its result memoized. *)
Definition fields : M (list Field) := fun self =>
  match dict_fields self with
  | Some fs => (Ok fs, self)
  | None => (fs ← fields_body; set_dict_fields fs ;; mret fs) self
  end.

(** The [fieldmap] property. *)
Definition fieldmap : M (option (gmap string Field)) :=
  cached ← getattr dict_fields;
  (if negb (bool_decide (is_Some cached)) then fields ;; mret tt else mret tt) ;;
  getattr _fieldmap.

(** The loop of [required_fields]: append until the first field with a
    default, then break. *)
Fixpoint required_loop (acc : list Field) (fs : list Field) : list Field :=
  match fs with
  | [] => acc
  | f :: rest =>
      if negb (field_has_default f) then required_loop (acc ++ [f]) rest
      else acc
  end.

Definition required_fields : M (list Field) :=
  fs ← fields; mret (required_loop [] fs).

(** The loop of [optional_fields], run on the reversed list. *)
Fixpoint optional_loop (acc : list Field) (fs : list Field) : list Field :=
  match fs with
  | [] => acc
  | f :: rest =>
      if field_has_default f then optional_loop (acc ++ [f]) rest
      else acc
  end.

Definition optional_fields : M (list Field) :=
  fs ← fields; mret (reverse (optional_loop [] (reverse fs))).

(** [self.fieldmap.get(field, default)]; the signature gives [default] the
    value [None]. *)
Definition get_field_default : value := VNone.

Definition get_field (field : string) (default : value) : M value :=
  fm ← fieldmap;
  match fm with
  | None => raise AttributeError
  | Some d => mret (match d !! field with Some f => VField f | None => default end)
  end.

Definition default_value (now : moment) (field : string) : M value :=
  fld ← get_field field get_field_default;
  if is_None fld then (_ ← name_; raise KeyError)
  else f ← lift (as_Field fld); lift (field_default_value now f).

Definition get_metadata (field : string) : M (list (string * value)) :=
  fld ← get_field field get_field_default;
  if is_None fld then (_ ← name_; raise KeyError)
  else f ← lift (as_Field fld); mret (metadata f).

Definition has_default (field : string) : M bool :=
  fld ← get_field field get_field_default;
  if is_None fld then (_ ← name_; raise KeyError)
  else f ← lift (as_Field fld); mret (field_has_default f).

(** The loop of [split_required_optional_fields]. *)
Fixpoint split_loop (req opt : list Field) (fs : list Field) : list Field * list Field :=
  match fs with
  | [] => (req, opt)
  | field :: rest =>
      if field_has_default field then split_loop req (opt ++ [field]) rest
      else split_loop (req ++ [field]) opt rest
  end.

Definition split_required_optional_fields : M (list Field * list Field) :=
  fs ← fields; mret (split_loop [] [] fs).

(** ** Instances a caller can obtain *)

(** The public operations of an instance. *)
Inductive method : Type :=
| GetCls
| SetCls (c : pyobject)
| GetName
| GetFields
| GetFieldmap
| GetRequiredFields
| GetOptionalFields
| CallGetField (field : string) (default : value)
| CallDefaultValue (now : moment) (field : string)
| CallGetMetadata (field : string)
| CallHasDefault (field : string)
| CallSplit.

(** The instance after an operation, whether it returned or raised. *)
Definition after (op : method) (self : DataClassInfo) : DataClassInfo :=
  match op with
  | GetCls => (cls self).2
  | SetCls c => (cls_setter c self).2
  | GetName => (name_ self).2
  | GetFields => (fields self).2
  | GetFieldmap => (fieldmap self).2
  | GetRequiredFields => (required_fields self).2
  | GetOptionalFields => (optional_fields self).2
  | CallGetField field default => (get_field field default self).2
  | CallDefaultValue now field => (default_value now field self).2
  | CallGetMetadata field => (get_metadata field self).2
  | CallHasDefault field => (has_default field self).2
  | CallSplit => (split_required_optional_fields self).2
  end.

(** An instance is reachable when the constructor returned it, or an
    operation on a reachable instance left it. *)
Inductive reachable : DataClassInfo -> Prop :=
| reachable_init c self :
    __init__ c = Ok self -> reachable self
| reachable_after op self :
    reachable self -> reachable (after op self).

(** The memoized list and the dictionary are present together, and both
    come from the class wrapped now. *)
Definition cache_consistent (self : DataClassInfo) : Prop :=
  match dict_fields self with
  | None => _fieldmap self = None
  | Some fs =>
      dataclasses_fields (_cls self) = Ok fs /\
      _fieldmap self = Some (dict_by_name fs)
  end.

(** The wrapped object is a dataclass (class, not instance) whose field
    names are pairwise distinct, with fields [fs]. *)
Definition wraps_record_class (self : DataClassInfo) (fs : list Field) : Prop :=
  (exists c, _cls self = PyClass c /\ dunder_dataclass_fields c = Some fs) /\
  NoDup (map name fs).

(** Scanning a list of fields for a name. *)
Definition scan (nm : string) (fs : list Field) : option Field :=
  find (fun f => bool_decide (name f = nm)) fs.

(** The instance once [fields] has been computed for the fields [fs]. *)
Definition loaded (self : DataClassInfo) (fs : list Field) : DataClassInfo :=
  mkInfo (_cls self) (Some (dict_by_name fs)) (Some fs).

(** A computation keeps the invariant, however it ends. *)
Definition preserves {A} (m : M A) : Prop :=
  forall self, cache_consistent self -> cache_consistent (m self).2.

(** A computation leaves the instance as it was, or as an access to
    [fields] leaves it. *)
Definition cache_only {A} (m : M A) : Prop :=
  forall self, (m self).2 = self \/ (m self).2 = (fields self).2.

(** ** Example classes

    [Point] has a required [x] and an optional [y]. *)

Definition field_x : Field := mkField "x" int_type MISSING MISSING [].
Definition field_y : Field := mkField "y" int_type (VInt 0) MISSING [].
Definition Point : pyobject :=
  PyClass (mkClass "Point" (Some [field_x; field_y])).
Definition point_info : DataClassInfo := mkInfo Point None None.

(** A field with both a default and a default factory, as [field()] would
    refuse to build but a later attribute write can produce. *)
Definition field_both : Field :=
  mkField "n" int_type (VInt 1) (VCallable (fun _ => Ok (VInt 2))) [].
Definition field_made : Field :=
  mkField "made" str_type MISSING str_type [].
Definition Both : pyobject :=
  PyClass (mkClass "Both" (Some [field_x; field_both; field_made])).

(** Fields in the order optional, required (what [kw_only] or a subclass
    can produce). *)
Definition Mixed : pyobject :=
  PyClass (mkClass "Mixed" (Some [field_y; field_x; field_made])).
Definition mixed_info : DataClassInfo := mkInfo Mixed None None.

(** A dataclass whose field has a default factory that raises. *)
Definition field_boom : Field :=
  mkField "boom" int_type MISSING
    (VCallable (fun _ => Raise (UserError "ZeroDivisionError"))) [].
Definition Boom : pyobject := PyClass (mkClass "Boom" (Some [field_boom])).
Definition boom_info : DataClassInfo := mkInfo Boom None None.

(** A dataclass whose default factory counts its calls. *)
Definition field_tick : Field :=
  mkField "tick" int_type MISSING
    (VCallable (fun now => Ok (VInt (Z.of_nat now)))) [].
Definition Ticker : pyobject := PyClass (mkClass "Ticker" (Some [field_tick])).
Definition ticker_info : DataClassInfo := mkInfo Ticker None None.

(** A class that is no dataclass, and an instance of [Point]. *)
Definition Plain : pyobject := PyClass (mkClass "Plain" None).
Definition a_point : pyobject :=
  PyInstance (mkClass "Point" (Some [field_x; field_y])).

(** ** Basic facts *)

(** [type(o)] is never the sentinel, so the second test of [is_missing]
    never fires. *)
Lemma is_missing_is_MISSING (o : value) : is_missing o = is_MISSING o.
Proof. unfold is_missing. destruct o; reflexivity. Qed.

Lemma field_has_default_spec (f : Field) :
  field_has_default f = true <->
  default f <> MISSING \/ default_factory f <> MISSING.
Proof.
  unfold field_has_default. rewrite !is_missing_is_MISSING.
  destruct (default f), (default_factory f); simpl;
    split; intros H; try done; try (by left); try (by right);
    destruct H as [H|H]; congruence.
Qed.

Lemma field_has_default_false (f : Field) :
  field_has_default f = false <->
  default f = MISSING /\ default_factory f = MISSING.
Proof.
  unfold field_has_default. rewrite !is_missing_is_MISSING.
  destruct (default f), (default_factory f); simpl;
    split; try done; intros [? ?]; congruence.
Qed.

(** *** Running the monad *)

Lemma run_bind {A B} (m : M A) (k : A -> M B) self :
  (m ≫= k) self =
  match m self with
  | (Ok a, self') => k a self'
  | (Raise e, self') => (Raise e, self')
  end.
Proof. reflexivity. Qed.

Lemma run_bind_ok {A B} (m : M A) (k : A -> M B) self a self' :
  m self = (Ok a, self') -> (m ≫= k) self = k a self'.
Proof. intros H. rewrite run_bind, H. reflexivity. Qed.

Lemma run_bind_raise {A B} (m : M A) (k : A -> M B) self e self' :
  m self = (Raise e, self') -> (m ≫= k) self = (Raise e, self').
Proof. intros H. rewrite run_bind, H. reflexivity. Qed.

(** *** The dictionary built from a list of fields *)

Section dict_by_name.
Implicit Types (fs : list Field) (d : gmap string Field) (nm : string).

Lemma foldl_setitem_notin fs d nm :
  nm ∉ map name fs -> foldl dict_setitem d fs !! nm = d !! nm.
Proof.
  revert d. induction fs as [|g rest IH]; intros d Hnm; [done|].
  simpl in *. rewrite IH by set_solver.
  unfold dict_setitem. apply lookup_insert_ne. set_solver.
Qed.

Lemma foldl_setitem_in fs d (f : Field) :
  NoDup (map name fs) -> f ∈ fs -> foldl dict_setitem d fs !! name f = Some f.
Proof.
  revert d. induction fs as [|g rest IH]; intros d Hnd Hin.
  - by apply elem_of_nil in Hin.
  - simpl in *. apply NoDup_cons in Hnd as [Hg Hnd].
    apply elem_of_cons in Hin as [->|Hin].
    + rewrite foldl_setitem_notin by done. apply lookup_insert_eq.
    + by apply IH.
Qed.

Lemma foldl_setitem_dom fs d :
  dom (foldl dict_setitem d fs) = list_to_set (map name fs) ∪ dom d.
Proof.
  revert d. induction fs as [|g rest IH]; intros d; simpl.
  - set_solver.
  - rewrite IH. unfold dict_setitem. rewrite dom_insert_L. set_solver.
Qed.

Lemma foldl_setitem_Some fs (d : gmap string Field) nm (f : Field) :
  foldl dict_setitem d fs !! nm = Some f ->
  (f ∈ fs /\ name f = nm) \/ d !! nm = Some f.
Proof.
  revert d. induction fs as [|g rest IH]; intros d Hlook; [by right|].
  simpl in Hlook. destruct (IH _ Hlook) as [[Hin Hname]|Hd].
  - left. split; [by apply list_elem_of_further | done].
  - unfold dict_setitem in Hd.
    destruct (decide (name g = nm)) as [Hg|Hg].
    + rewrite <-Hg, lookup_insert_eq in Hd. injection Hd as <-.
      left. split; [apply list_elem_of_here | done].
    + rewrite lookup_insert_ne in Hd by done. by right.
Qed.

Lemma dict_by_name_Some fs nm (f : Field) :
  dict_by_name fs !! nm = Some f -> f ∈ fs /\ name f = nm.
Proof.
  intros Hlook. apply foldl_setitem_Some in Hlook as [?|Hempty]; [done|].
  by rewrite lookup_empty in Hempty.
Qed.

Lemma dict_by_name_notin fs nm :
  nm ∉ map name fs -> dict_by_name fs !! nm = None.
Proof. intros H. unfold dict_by_name. by rewrite (foldl_setitem_notin fs ∅ nm H). Qed.

Lemma dict_by_name_in fs (f : Field) :
  NoDup (map name fs) -> f ∈ fs -> dict_by_name fs !! name f = Some f.
Proof. apply foldl_setitem_in. Qed.

Lemma dict_by_name_dom fs :
  dom (dict_by_name fs) = list_to_set (map name fs).
Proof. unfold dict_by_name. rewrite (foldl_setitem_dom fs ∅). set_solver. Qed.

Lemma scan_notin fs nm : nm ∉ map name fs -> scan nm fs = None.
Proof.
  induction fs as [|g rest IH]; intros H; [done|]. simpl in *.
  rewrite bool_decide_eq_false_2 by set_solver. apply IH. set_solver.
Qed.

Lemma scan_in fs (f : Field) :
  NoDup (map name fs) -> f ∈ fs -> scan (name f) fs = Some f.
Proof.
  induction fs as [|g rest IH]; intros Hnd Hin.
  - by apply elem_of_nil in Hin.
  - simpl in *. apply NoDup_cons in Hnd as [Hg Hnd].
    apply elem_of_cons in Hin as [->|Hin].
    + by rewrite bool_decide_eq_true_2.
    + assert (name g <> name f) as Hne.
      { intros Heq. apply Hg. rewrite Heq. by apply list_elem_of_fmap_2. }
      rewrite bool_decide_eq_false_2 by done. by apply IH.
Qed.

Lemma scan_Some fs nm (f : Field) :
  scan nm fs = Some f -> f ∈ fs /\ name f = nm.
Proof.
  unfold scan. intros H. apply find_some in H as [Hin Hb].
  apply bool_decide_eq_true in Hb. split; [by apply list_elem_of_In | done].
Qed.

Lemma dict_by_name_keys fs nm :
  is_Some (dict_by_name fs !! nm) <-> nm ∈ map name fs.
Proof. rewrite <-elem_of_dom, dict_by_name_dom. set_solver. Qed.

(** With distinct names, the dictionary finds what a scan finds. *)
Lemma dict_by_name_scan fs nm :
  NoDup (map name fs) -> dict_by_name fs !! nm = scan nm fs.
Proof.
  intros Hnd. destruct (decide (nm ∈ map name fs)) as [Hin|Hout].
  - apply list_elem_of_fmap in Hin as (f & -> & Hf).
    by rewrite dict_by_name_in, scan_in.
  - by rewrite dict_by_name_notin, scan_notin.
Qed.
End dict_by_name.

(** ** The memoization invariant *)

Lemma fields_cached self fs :
  dict_fields self = Some fs -> fields self = (Ok fs, self).
Proof. intros H. unfold fields. by rewrite H. Qed.

Lemma fields_computed self fs :
  dict_fields self = None ->
  dataclasses_fields (_cls self) = Ok fs ->
  fields self = (Ok fs, loaded self fs).
Proof.
  intros Hnone Hfs. unfold fields. rewrite Hnone.
  unfold fields_body, cls, getattr, lift, set_fieldmap_attr, set_dict_fields.
  rewrite !run_bind. simpl. rewrite Hfs. reflexivity.
Qed.

Lemma fields_raises self e :
  dict_fields self = None ->
  dataclasses_fields (_cls self) = Raise e ->
  fields self = (Raise e, self).
Proof.
  intros Hnone Hfs. unfold fields. rewrite Hnone.
  unfold fields_body, cls, getattr, lift.
  rewrite !run_bind. simpl. rewrite Hfs. reflexivity.
Qed.

Lemma cls_setter_cached c self fs :
  dict_fields self = Some fs ->
  cls_setter c self = (Ok tt, mkInfo c None None).
Proof.
  intros H. unfold cls_setter, set_cls_attr, del_fields, set_fieldmap_attr.
  rewrite !run_bind. simpl. rewrite H. reflexivity.
Qed.

Lemma cls_setter_uncached c self :
  dict_fields self = None ->
  cls_setter c self = (Raise AttributeError, mkInfo c (_fieldmap self) None).
Proof.
  intros H. unfold cls_setter, set_cls_attr, del_fields.
  rewrite !run_bind. simpl. rewrite H. reflexivity.
Qed.

Lemma preserves_ret {A} (a : A) : preserves (mret a).
Proof. by intros self H. Qed.

Lemma preserves_raise {A} e : preserves (@raise A e).
Proof. by intros self H. Qed.

Lemma preserves_lift {A} (r : result A) : preserves (lift r).
Proof. by intros self H. Qed.

Lemma preserves_getattr {A} (proj : DataClassInfo -> A) : preserves (getattr proj).
Proof. by intros self H. Qed.

Lemma preserves_bind {A B} (m : M A) (k : A -> M B) :
  preserves m -> (forall a, preserves (k a)) -> preserves (m ≫= k).
Proof.
  intros Hm Hk self H. rewrite run_bind. specialize (Hm self H).
  destruct (m self) as [[a|e] self']; simpl in *; [by apply Hk | done].
Qed.

Lemma preserves_fields : preserves fields.
Proof.
  intros self H. unfold cache_consistent in H.
  destruct (dict_fields self) as [fs|] eqn:Hd.
  - by rewrite (fields_cached self fs Hd); simpl; unfold cache_consistent; rewrite Hd.
  - destruct (dataclasses_fields (_cls self)) as [fs|e] eqn:Hfs.
    + rewrite (fields_computed self fs Hd Hfs). by split.
    + rewrite (fields_raises self e Hd Hfs). simpl.
      unfold cache_consistent. by rewrite Hd.
Qed.

Lemma preserves_cls_setter c : preserves (cls_setter c).
Proof.
  intros self H. unfold cache_consistent in H.
  destruct (dict_fields self) as [fs|] eqn:Hd.
  - by rewrite (cls_setter_cached c self fs Hd).
  - by rewrite (cls_setter_uncached c self Hd).
Qed.

Create HintDb preserves.
#[local] Hint Resolve preserves_ret preserves_raise preserves_lift
  preserves_getattr preserves_fields preserves_cls_setter : preserves.

Ltac preserves_tac :=
  repeat first
    [ apply preserves_bind; [|intros ?]
    | match goal with |- preserves (if ?b then _ else _) => destruct b end
    | match goal with |- preserves (match ?o with Some _ => _ | None => _ end) =>
        destruct o end
    | solve [auto with preserves] ].

Lemma preserves_fieldmap : preserves fieldmap.
Proof. unfold fieldmap. preserves_tac. Qed.

Lemma preserves_get_field field default : preserves (get_field field default).
Proof. unfold get_field. pose proof preserves_fieldmap. preserves_tac. Qed.

#[local] Hint Resolve preserves_fieldmap preserves_get_field : preserves.

Lemma preserves_apply {A} (m : M A) self :
  preserves m -> cache_consistent self -> cache_consistent (m self).2.
Proof. intros Hm. apply Hm. Qed.

Lemma preserves_after op self :
  cache_consistent self -> cache_consistent (after op self).
Proof.
  intros H.
  destruct op; cbn [after]; (apply preserves_apply; [|done]);
    try solve [auto with preserves];
    unfold cls, name_, required_fields, optional_fields, default_value,
      get_metadata, has_default, split_required_optional_fields;
    preserves_tac.
Qed.

(** Every reachable instance satisfies the invariant. *)
Lemma reachable_consistent self : reachable self -> cache_consistent self.
Proof.
  induction 1 as [c self Hinit | op self _ IH].
  - unfold __init__ in Hinit. destruct (negb (is_dataclass c)); [done|].
    by injection Hinit as <-.
  - by apply preserves_after.
Qed.

(** ** What the accessors evaluate to *)

Section accessors.
Context (self : DataClassInfo) (fs : list Field).
Hypothesis Hcons : cache_consistent self.
Hypothesis Hfs : dataclasses_fields (_cls self) = Ok fs.

Lemma fields_spec : fields self = (Ok fs, loaded self fs).
Proof using Hcons Hfs.
  unfold cache_consistent in Hcons.
  destruct (dict_fields self) as [fs'|] eqn:Hd.
  - destruct Hcons as [Hfs' Hmap]. rewrite Hfs in Hfs'. injection Hfs' as <-.
    rewrite (fields_cached self fs Hd). f_equal.
    destruct self; simpl in *. unfold loaded. simpl. congruence.
  - by apply fields_computed.
Qed.

Lemma fieldmap_spec :
  fieldmap self = (Ok (Some (dict_by_name fs)), loaded self fs).
Proof using Hcons Hfs.
  unfold fieldmap, getattr. rewrite run_bind. cbn beta iota.
  unfold cache_consistent in Hcons.
  destruct (dict_fields self) as [fs'|] eqn:Hd.
  - destruct Hcons as [Hfs' Hmap]. rewrite Hfs in Hfs'. injection Hfs' as <-.
    rewrite bool_decide_eq_true_2 by eauto. cbn [negb].
    rewrite run_bind. cbn. rewrite Hmap. f_equal.
    destruct self; simpl in *. unfold loaded. simpl. congruence.
  - rewrite bool_decide_eq_false_2 by (by intros [? ?]). cbn [negb].
    rewrite !run_bind. rewrite (fields_computed self fs Hd Hfs). reflexivity.
Qed.

Lemma get_field_spec field default :
  get_field field default self =
  (Ok (match dict_by_name fs !! field with
       | Some f => VField f
       | None => default
       end), loaded self fs).
Proof using Hcons Hfs.
  unfold get_field. rewrite run_bind, fieldmap_spec. reflexivity.
Qed.

Lemma required_fields_spec :
  required_fields self = (Ok (required_loop [] fs), loaded self fs).
Proof using Hcons Hfs.
  unfold required_fields. rewrite run_bind, fields_spec. reflexivity.
Qed.

Lemma optional_fields_spec :
  optional_fields self =
  (Ok (reverse (optional_loop [] (reverse fs))), loaded self fs).
Proof using Hcons Hfs.
  unfold optional_fields. rewrite run_bind, fields_spec. reflexivity.
Qed.

Lemma split_required_optional_fields_spec :
  split_required_optional_fields self = (Ok (split_loop [] [] fs), loaded self fs).
Proof using Hcons Hfs.
  unfold split_required_optional_fields. rewrite run_bind, fields_spec.
  reflexivity.
Qed.
End accessors.

(** ** The three loops *)

Lemma required_loop_acc acc fs :
  required_loop acc fs = acc ++ required_loop [] fs.
Proof.
  revert acc. induction fs as [|f rest IH]; intros acc; simpl.
  - by rewrite app_nil_r.
  - destruct (field_has_default f); simpl; [by rewrite app_nil_r|].
    rewrite (IH (acc ++ [f])), (IH [f]). by rewrite <-app_assoc.
Qed.

Lemma required_loop_cons f rest :
  required_loop [] (f :: rest) =
  if field_has_default f then [] else f :: required_loop [] rest.
Proof.
  simpl. destruct (field_has_default f); simpl; [done|].
  by rewrite required_loop_acc.
Qed.

Lemma required_loop_split fs :
  exists rest,
    fs = required_loop [] fs ++ rest /\
    Forall (fun f => field_has_default f = false) (required_loop [] fs) /\
    (forall f, head rest = Some f -> field_has_default f = true).
Proof.
  induction fs as [|f fs' (rest & Heq & Hall & Hhd)].
  - exists []. by repeat split.
  - rewrite required_loop_cons. destruct (field_has_default f) eqn:Hf.
    + exists (f :: fs'). repeat split; [done|]. intros g [= <-]. done.
    + exists rest. repeat split; [by rewrite <-app_comm_cons, <-Heq | | done].
      by constructor.
Qed.

Lemma required_loop_stops l1 d l2 :
  field_has_default d = true ->
  required_loop [] (l1 ++ d :: l2) `prefix_of` l1.
Proof.
  intros Hd. induction l1 as [|f l1 IH].
  - simpl. rewrite Hd. simpl. done.
  - rewrite <-app_comm_cons, required_loop_cons.
    destruct (field_has_default f); [apply prefix_nil | by apply prefix_cons].
Qed.

Lemma optional_loop_acc acc fs :
  optional_loop acc fs = acc ++ optional_loop [] fs.
Proof.
  revert acc. induction fs as [|f rest IH]; intros acc; simpl.
  - by rewrite app_nil_r.
  - destruct (field_has_default f); simpl; [|by rewrite app_nil_r].
    rewrite (IH (acc ++ [f])), (IH [f]). by rewrite <-app_assoc.
Qed.

Lemma optional_loop_cons f rest :
  optional_loop [] (f :: rest) =
  if field_has_default f then f :: optional_loop [] rest else [].
Proof.
  simpl. destruct (field_has_default f); simpl; [|done].
  by rewrite optional_loop_acc.
Qed.

Lemma optional_loop_split fs :
  exists rest,
    fs = optional_loop [] fs ++ rest /\
    Forall (fun f => field_has_default f = true) (optional_loop [] fs) /\
    (forall f, head rest = Some f -> field_has_default f = false).
Proof.
  induction fs as [|f fs' (rest & Heq & Hall & Hhd)].
  - exists []. by repeat split.
  - rewrite optional_loop_cons. destruct (field_has_default f) eqn:Hf.
    + exists rest. repeat split; [by rewrite <-app_comm_cons, <-Heq | | done].
      by constructor.
    + exists (f :: fs'). repeat split; [done|]. intros g [= <-]. done.
Qed.

Lemma split_loop_filter req opt fs :
  split_loop req opt fs =
  (req ++ filter (fun f => field_has_default f = false) fs,
   opt ++ filter (fun f => field_has_default f = true) fs).
Proof.
  revert req opt. induction fs as [|f rest IH]; intros req opt; simpl.
  - by rewrite !app_nil_r.
  - rewrite !filter_cons. destruct (field_has_default f) eqn:Hf; rewrite IH.
    + rewrite decide_False by done. rewrite decide_True by done.
      by rewrite <-app_assoc.
    + rewrite decide_True by done. rewrite decide_False by done.
      by rewrite <-app_assoc.
Qed.

(** ** Required, optional and split fields *)

(** C1. For a reachable inspector that wraps a dataclass with fields [fs],
    [required_fields] returns the prefix [req] of [fs] made of fields
    without a default, up to the first field that has a default or a
    default factory: [fs = req ++ rest], every field of [req] has
    [MISSING] for its default and for its default factory, and [rest] is
    empty or starts with a field whose default or default factory is not
    [MISSING].  In particular [req] is empty when the first field has a
    default or a default factory, and whatever is declared after such a
    field is left out: [req] is a prefix of what precedes it. *)
Theorem required_fields_prefix (self : DataClassInfo) (fs : list Field) :
  reachable self ->
  dataclasses_fields (_cls self) = Ok fs ->
  exists req rest,
    (required_fields self).1 = Ok req /\
    fs = req ++ rest /\
    Forall (fun f => default f = MISSING /\ default_factory f = MISSING) req /\
    (forall f, head rest = Some f ->
               default f <> MISSING \/ default_factory f <> MISSING) /\
    (forall f, head fs = Some f ->
               default f <> MISSING \/ default_factory f <> MISSING ->
               req = []) /\
    (forall l1 d l2, fs = l1 ++ d :: l2 ->
                     default d <> MISSING \/ default_factory d <> MISSING ->
                     req `prefix_of` l1).
Proof.
  intros Hreach Hfs. apply reachable_consistent in Hreach.
  destruct (required_loop_split fs) as (rest & Heq & Hall & Hhd).
  exists (required_loop [] fs), rest.
  rewrite (required_fields_spec self fs Hreach Hfs).
  split; [done|]. split; [done|].
  split.
  { eapply Forall_impl; [exact Hall|]. intros f. apply field_has_default_false. }
  split.
  { intros f Hf. apply field_has_default_spec. by apply Hhd. }
  split.
  - intros f Hf Hdef%field_has_default_spec. apply head_Some in Hf as [fs' ->].
    rewrite required_loop_cons. by rewrite Hdef.
  - intros l1 d l2 -> Hd%field_has_default_spec. by apply required_loop_stops.
Qed.

Lemma required_fields_prefix_witness :
  exists req rest,
    (required_fields (mkInfo Both None None)).1 = Ok req /\
    [field_x; field_both; field_made] = req ++ rest /\
    Forall (fun f => default f = MISSING /\ default_factory f = MISSING) req /\
    (forall f, head rest = Some f ->
               default f <> MISSING \/ default_factory f <> MISSING) /\
    (forall f, head [field_x; field_both; field_made] = Some f ->
               default f <> MISSING \/ default_factory f <> MISSING ->
               req = []) /\
    (forall l1 d l2, [field_x; field_both; field_made] = l1 ++ d :: l2 ->
                     default d <> MISSING \/ default_factory d <> MISSING ->
                     req `prefix_of` l1).
Proof.
  apply (required_fields_prefix (mkInfo Both None None)
           [field_x; field_both; field_made]).
  - apply (reachable_init Both). reflexivity.
  - reflexivity.
Defined.

(** C2. For a reachable inspector that wraps a dataclass with fields [fs],
    [optional_fields] returns, in declaration order, the suffix [opt] of
    [fs] made of fields with a default or a default factory, back to the
    last field without one: [fs = rest ++ opt], every field of [opt] has a
    default or a default factory that is not [MISSING], and [rest] is
    empty or ends with a field whose default and default factory are both
    [MISSING].  In particular [opt] is empty when the last field has
    neither. *)
Theorem optional_fields_suffix (self : DataClassInfo) (fs : list Field) :
  reachable self ->
  dataclasses_fields (_cls self) = Ok fs ->
  exists rest opt,
    (optional_fields self).1 = Ok opt /\
    fs = rest ++ opt /\
    Forall (fun f => default f <> MISSING \/ default_factory f <> MISSING) opt /\
    (forall f, last rest = Some f ->
               default f = MISSING /\ default_factory f = MISSING) /\
    (forall f, last fs = Some f ->
               default f = MISSING /\ default_factory f = MISSING ->
               opt = []).
Proof.
  intros Hreach Hfs. apply reachable_consistent in Hreach.
  destruct (optional_loop_split (reverse fs)) as (tser & Heq & Hall & Hhd).
  exists (reverse tser), (reverse (optional_loop [] (reverse fs))).
  rewrite (optional_fields_spec self fs Hreach Hfs).
  split; [done|].
  split.
  { rewrite <-reverse_app, <-Heq. by rewrite reverse_involutive. }
  split.
  { apply Forall_reverse. eapply Forall_impl; [exact Hall|].
    intros f. apply field_has_default_spec. }
  split.
  - intros f. rewrite last_reverse. intros Hf.
    apply field_has_default_false. by apply Hhd.
  - intros f Hf Hdef%field_has_default_false. rewrite <-head_reverse in Hf.
    apply head_Some in Hf as [l' ->].
    rewrite optional_loop_cons. by rewrite Hdef.
Qed.

Lemma optional_fields_suffix_witness :
  exists rest opt,
    (optional_fields (mkInfo Both None None)).1 = Ok opt /\
    [field_x; field_both; field_made] = rest ++ opt /\
    Forall (fun f => default f <> MISSING \/ default_factory f <> MISSING) opt /\
    (forall f, last rest = Some f ->
               default f = MISSING /\ default_factory f = MISSING) /\
    (forall f, last [field_x; field_both; field_made] = Some f ->
               default f = MISSING /\ default_factory f = MISSING ->
               opt = []).
Proof.
  apply (optional_fields_suffix (mkInfo Both None None)
           [field_x; field_both; field_made]).
  - apply (reachable_init Both). reflexivity.
  - reflexivity.
Defined.

(** C3. For a reachable inspector that wraps a dataclass with fields [fs],
    [split_required_optional_fields()] returns [(req, opt)] where [req] is
    all the fields of [fs] whose default and default factory are both
    [MISSING], and [opt] all those with a default or a default factory,
    each in the order of [fs], wherever they stand in [fs]; together they
    hold every field of [fs] once ([req ++ opt] is a permutation of [fs]),
    and no field is in both. *)
Theorem split_required_optional_fields_partition
    (self : DataClassInfo) (fs : list Field) :
  reachable self ->
  dataclasses_fields (_cls self) = Ok fs ->
  exists req opt,
    (split_required_optional_fields self).1 = Ok (req, opt) /\
    req = filter (fun f => default f = MISSING /\ default_factory f = MISSING)
            fs /\
    opt = filter (fun f => default f <> MISSING \/ default_factory f <> MISSING)
            fs /\
    req `sublist_of` fs /\ opt `sublist_of` fs /\
    req ++ opt ≡ₚ fs /\
    (forall f, f ∈ req -> f ∈ opt -> False).
Proof.
  intros Hreach Hfs. apply reachable_consistent in Hreach.
  eexists _, _.
  rewrite (split_required_optional_fields_spec self fs Hreach Hfs).
  rewrite split_loop_filter. simpl.
  rewrite <-(list_filter_iff (fun f => field_has_default f = false)
               (fun f => default f = MISSING /\ default_factory f = MISSING))
    by apply field_has_default_false.
  rewrite <-(list_filter_iff (fun f => field_has_default f = true)
               (fun f => default f <> MISSING \/ default_factory f <> MISSING))
    by apply field_has_default_spec.
  repeat split; try apply sublist_filter.
  - rewrite Permutation_app_comm.
    rewrite (list_filter_iff (fun f => field_has_default f = false)
               (fun f => ¬ field_has_default f = true)).
    + apply filter_app_complement.
    + intros f. by destruct (field_has_default f).
  - intros f [Hreq _]%list_elem_of_filter [Hopt _]%list_elem_of_filter.
    congruence.
Qed.

Lemma split_required_optional_fields_partition_witness :
  exists req opt,
    (split_required_optional_fields mixed_info).1 = Ok (req, opt) /\
    req = filter (fun f => default f = MISSING /\ default_factory f = MISSING)
            [field_y; field_x; field_made] /\
    opt = filter (fun f => default f <> MISSING \/ default_factory f <> MISSING)
            [field_y; field_x; field_made] /\
    req `sublist_of` [field_y; field_x; field_made] /\
    opt `sublist_of` [field_y; field_x; field_made] /\
    req ++ opt ≡ₚ [field_y; field_x; field_made] /\
    (forall f, f ∈ req -> f ∈ opt -> False).
Proof.
  apply (split_required_optional_fields_partition mixed_info
           [field_y; field_x; field_made]).
  - apply (reachable_init Mixed). reflexivity.
  - reflexivity.
Defined.

(** ** Lookups by name *)

Section by_name.
Context (self : DataClassInfo) (fs : list Field).
Hypothesis Hcons : cache_consistent self.
Hypothesis Hfs : dataclasses_fields (_cls self) = Ok fs.

(** A name of no field: the lookup yields [None], and the three
    accessors go on to format their message with [self.name]. *)
Section unknown.
Context (nm : string).
Hypothesis Hnm : nm ∉ map name fs.

Lemma get_field_unknown default :
  get_field nm default self = (Ok default, loaded self fs).
Proof using Hcons Hfs Hnm.
  rewrite (get_field_spec self fs Hcons Hfs).
  by rewrite dict_by_name_notin.
Qed.

Lemma default_value_unknown now :
  default_value now nm self =
  (_ ← getattr_name (_cls self); Raise KeyError, loaded self fs).
Proof using Hcons Hfs Hnm.
  unfold default_value. rewrite run_bind, get_field_unknown.
  unfold get_field_default, name_, getattr, lift, raise.
  cbn [is_None]. rewrite !run_bind. cbn [_cls loaded].
  by destruct (getattr_name (_cls self)).
Qed.

Lemma get_metadata_unknown :
  get_metadata nm self =
  (_ ← getattr_name (_cls self); Raise KeyError, loaded self fs).
Proof using Hcons Hfs Hnm.
  unfold get_metadata. rewrite run_bind, get_field_unknown.
  unfold get_field_default, name_, getattr, lift, raise.
  cbn [is_None]. rewrite !run_bind. cbn [_cls loaded].
  by destruct (getattr_name (_cls self)).
Qed.

Lemma has_default_unknown :
  has_default nm self =
  (_ ← getattr_name (_cls self); Raise KeyError, loaded self fs).
Proof using Hcons Hfs Hnm.
  unfold has_default. rewrite run_bind, get_field_unknown.
  unfold get_field_default, name_, getattr, lift, raise.
  cbn [is_None]. rewrite !run_bind. cbn [_cls loaded].
  by destruct (getattr_name (_cls self)).
Qed.
End unknown.

(** The name of a field, in a class with distinct field names. *)
Section known.
Context (f : Field).
Hypothesis Hnd : NoDup (map name fs).
Hypothesis Hf : f ∈ fs.

Lemma get_field_known default :
  get_field (name f) default self = (Ok (VField f), loaded self fs).
Proof using Hcons Hfs Hnd Hf.
  rewrite (get_field_spec self fs Hcons Hfs).
  by rewrite dict_by_name_in.
Qed.

Lemma default_value_known now :
  default_value now (name f) self = (field_default_value now f, loaded self fs).
Proof using Hcons Hfs Hnd Hf.
  unfold default_value. rewrite run_bind, get_field_known. reflexivity.
Qed.

Lemma get_metadata_known :
  get_metadata (name f) self = (Ok (metadata f), loaded self fs).
Proof using Hcons Hfs Hnd Hf.
  unfold get_metadata. rewrite run_bind, get_field_known. reflexivity.
Qed.

Lemma has_default_known :
  has_default (name f) self = (Ok (field_has_default f), loaded self fs).
Proof using Hcons Hfs Hnd Hf.
  unfold has_default. rewrite run_bind, get_field_known. reflexivity.
Qed.
End known.
End by_name.

Lemma field_default_value_cases (now : moment) (f : Field) :
  (default f <> MISSING -> field_default_value now f = Ok (default f)) /\
  (default f = MISSING -> default_factory f <> MISSING ->
   field_default_value now f = call now (default_factory f)) /\
  (default f = MISSING -> default_factory f = MISSING ->
   field_default_value now f = Ok MISSING).
Proof.
  unfold field_default_value. rewrite !is_missing_is_MISSING.
  repeat split.
  - intros H. by destruct (default f).
  - intros -> H. simpl. by destruct (default_factory f).
  - by intros -> ->.
Qed.

(** C4. For a reachable inspector that wraps a dataclass with distinctly
    named fields [fs], and a field [f] of it, [default_value(f.name)]
    returns [f.default] when that is not [MISSING], whatever
    [f.default_factory] is; else it is the outcome of calling
    [f.default_factory] with no argument when that is not [MISSING]; and it
    returns [MISSING] when both are [MISSING].  This holds at every moment
    [now] of the call: the outcome is that of the call of the factory at
    that moment. *)
Theorem default_value_prefers_default
    (self : DataClassInfo) (fs : list Field) (f : Field) (now : moment) :
  reachable self ->
  dataclasses_fields (_cls self) = Ok fs ->
  NoDup (map name fs) ->
  f ∈ fs ->
  (default f <> MISSING ->
   (default_value now (name f) self).1 = Ok (default f)) /\
  (default f = MISSING -> default_factory f <> MISSING ->
   (default_value now (name f) self).1 = call now (default_factory f)) /\
  (default f = MISSING -> default_factory f = MISSING ->
   (default_value now (name f) self).1 = Ok MISSING).
Proof.
  intros Hreach Hfs Hnd Hf. apply reachable_consistent in Hreach.
  rewrite (default_value_known self fs Hreach Hfs f Hnd Hf). simpl.
  apply field_default_value_cases.
Qed.

Lemma default_value_prefers_default_witness :
  (default field_both <> MISSING ->
   (default_value 0 "n" (mkInfo Both None None)).1 = Ok (VInt 1)) /\
  (default field_both = MISSING -> default_factory field_both <> MISSING ->
   (default_value 0 "n" (mkInfo Both None None)).1 =
   call 0 (default_factory field_both)) /\
  (default field_both = MISSING -> default_factory field_both = MISSING ->
   (default_value 0 "n" (mkInfo Both None None)).1 = Ok MISSING).
Proof.
  apply (default_value_prefers_default (mkInfo Both None None)
           [field_x; field_both; field_made] field_both 0).
  - apply (reachable_init Both). reflexivity.
  - reflexivity.
  - compute_done.
  - apply list_elem_of_further, list_elem_of_here.
Defined.

(** ** Unknown names *)

(** C5, as stated, fails: [boom] is a field of the valid dataclass [Boom],
    and [default_value("boom")] raises what its default factory raises. *)
Lemma default_value_of_field_raises :
  reachable boom_info /\
  wraps_record_class boom_info [field_boom] /\
  field_boom ∈ [field_boom] /\
  name field_boom = "boom" /\
  (default_value 0 "boom" boom_info).1 = Raise (UserError "ZeroDivisionError") /\
  is_ok (default_value 0 "boom" boom_info).1 = false.
Proof.
  split; [apply (reachable_init Boom); reflexivity|].
  split; [split; [by eexists | compute_done]|].
  split; [apply list_elem_of_here|].
  split; [reflexivity|].
  split; vm_compute; reflexivity.
Qed.

(** C5, amended.  For a reachable inspector that wraps a dataclass (a
    class) with distinctly named fields [fs]: for a name of no field,
    [has_default], [default_value] and [get_metadata] each raise
    [KeyError]; for the name of a field [f], [has_default] and
    [get_metadata] return, and [default_value] is the outcome of
    [field_default_value f]: it returns when [f] has an explicit default,
    or no default factory, or a default factory whose call returns, and it
    raises only what the call of the default factory raises. *)
Theorem unknown_field_key_error
    (self : DataClassInfo) (fs : list Field) (nm : string) (now : moment) :
  reachable self ->
  wraps_record_class self fs ->
  (nm ∉ map name fs ->
   (has_default nm self).1 = Raise KeyError /\
   (default_value now nm self).1 = Raise KeyError /\
   (get_metadata nm self).1 = Raise KeyError) /\
  (forall f, f ∈ fs -> name f = nm ->
   (has_default nm self).1 = Ok (field_has_default f) /\
   (get_metadata nm self).1 = Ok (metadata f) /\
   (default_value now nm self).1 = field_default_value now f /\
   (default f <> MISSING \/ default_factory f = MISSING \/
    is_ok (call now (default_factory f)) = true ->
    is_ok (default_value now nm self).1 = true) /\
   (forall e, (default_value now nm self).1 = Raise e ->
    default f = MISSING /\ call now (default_factory f) = Raise e)).
Proof.
  intros Hreach [(c & Hcls & Hc) Hnd]. apply reachable_consistent in Hreach.
  assert (dataclasses_fields (_cls self) = Ok fs) as Hfs.
  { rewrite Hcls. unfold dataclasses_fields. simpl. by rewrite Hc. }
  split.
  - intros Hnm.
    rewrite (has_default_unknown self fs Hreach Hfs nm Hnm),
      (default_value_unknown self fs Hreach Hfs nm Hnm now),
      (get_metadata_unknown self fs Hreach Hfs nm Hnm).
    rewrite Hcls. by simpl.
  - intros f Hf <-.
    rewrite (has_default_known self fs Hreach Hfs f Hnd Hf),
      (default_value_known self fs Hreach Hfs f Hnd Hf now),
      (get_metadata_known self fs Hreach Hfs f Hnd Hf).
    simpl. repeat split; try done.
    + destruct (field_default_value_cases now f) as (H1 & H2 & H3).
      destruct (decide (is_MISSING (default f) = true)) as [Hd|Hd].
      * assert (default f = MISSING) as Hd' by (by destruct (default f)).
        destruct (decide (is_MISSING (default_factory f) = true)) as [Hdf|Hdf].
        -- assert (default_factory f = MISSING) as Hdf'
             by (by destruct (default_factory f)).
           intros _. by rewrite H3.
        -- assert (default_factory f <> MISSING) as Hdf'
             by (intros E; by rewrite E in Hdf).
           rewrite (H2 Hd' Hdf'). intros [?|[?|?]]; congruence.
      * assert (default f <> MISSING) as Hd' by (intros E; by rewrite E in Hd).
        intros _. by rewrite (H1 Hd').
    + unfold field_default_value in H. rewrite !is_missing_is_MISSING in H.
      destruct (default f); simpl in *; try done.
    + unfold field_default_value in H. rewrite !is_missing_is_MISSING in H.
      destruct (default f); simpl in *; try done.
      destruct (is_MISSING (default_factory f)); simpl in *; done.
Qed.

Lemma unknown_field_key_error_witness :
  ("z" ∉ map name [field_x; field_y] ->
   (has_default "z" point_info).1 = Raise KeyError /\
   (default_value 0 "z" point_info).1 = Raise KeyError /\
   (get_metadata "z" point_info).1 = Raise KeyError) /\
  (forall f, f ∈ [field_x; field_y] -> name f = "z" ->
   (has_default "z" point_info).1 = Ok (field_has_default f) /\
   (get_metadata "z" point_info).1 = Ok (metadata f) /\
   (default_value 0 "z" point_info).1 = field_default_value 0 f /\
   (default f <> MISSING \/ default_factory f = MISSING \/
    is_ok (call 0 (default_factory f)) = true ->
    is_ok (default_value 0 "z" point_info).1 = true) /\
   (forall e, (default_value 0 "z" point_info).1 = Raise e ->
    default f = MISSING /\ call 0 (default_factory f) = Raise e)).
Proof.
  apply (unknown_field_key_error point_info [field_x; field_y] "z" 0).
  - apply (reachable_init Point). reflexivity.
  - split; [by eexists | compute_done].
Defined.

(** On an inspector that wraps a dataclass instance (the constructor takes
    one), [self.name] raises, so an unknown name gives [AttributeError]. *)
Remark unknown_field_on_instance c fs nm now :
  dunder_dataclass_fields c = Some fs ->
  nm ∉ map name fs ->
  (default_value now nm (mkInfo (PyInstance c) None None)).1
    = Raise AttributeError.
Proof.
  intros Hc Hnm.
  rewrite (default_value_unknown _ fs); [done|done| |done].
  unfold dataclasses_fields. simpl. by rewrite Hc.
Qed.

(** C6. For a reachable inspector that wraps a dataclass with distinctly
    named fields [fs], every name [nm] and every [default],
    [get_field(nm, default)] returns: the field of that name when there is
    one, else [default], which the signature sets to [None]. *)
Theorem get_field_never_fails
    (self : DataClassInfo) (fs : list Field) (nm : string) (default : value) :
  reachable self ->
  dataclasses_fields (_cls self) = Ok fs ->
  NoDup (map name fs) ->
  exists v,
    (get_field nm default self).1 = Ok v /\
    (forall f, f ∈ fs -> name f = nm -> v = VField f) /\
    (nm ∉ map name fs -> v = default) /\
    (nm ∉ map name fs -> (get_field nm get_field_default self).1 = Ok VNone).
Proof.
  intros Hreach Hfs Hnd. apply reachable_consistent in Hreach.
  rewrite !(get_field_spec self fs Hreach Hfs). eexists. split; [done|].
  repeat split.
  - intros f Hf <-. by rewrite dict_by_name_in.
  - intros Hnm. by rewrite dict_by_name_notin.
  - intros Hnm. by rewrite dict_by_name_notin.
Qed.

Lemma get_field_never_fails_witness :
  exists v,
    (get_field "z" VNone point_info).1 = Ok v /\
    (forall f, f ∈ [field_x; field_y] -> name f = "z" -> v = VField f) /\
    ("z" ∉ map name [field_x; field_y] -> v = VNone) /\
    ("z" ∉ map name [field_x; field_y] ->
     (get_field "z" get_field_default point_info).1 = Ok VNone).
Proof.
  apply (get_field_never_fails point_info [field_x; field_y] "z" VNone).
  - apply (reachable_init Point). reflexivity.
  - reflexivity.
  - compute_done.
Defined.

(** ** Who writes the cache *)

Lemma fields_again self : (fields (fields self).2).2 = (fields self).2.
Proof.
  destruct (dict_fields self) as [fs|] eqn:Hd.
  - rewrite (fields_cached self fs Hd). cbn [snd].
    by rewrite (fields_cached self fs Hd).
  - destruct (dataclasses_fields (_cls self)) as [fs|e] eqn:Hfs.
    + rewrite (fields_computed self fs Hd Hfs). cbn [snd].
      by rewrite (fields_cached (loaded self fs) fs).
    + rewrite (fields_raises self e Hd Hfs). cbn [snd].
      by rewrite (fields_raises self e Hd Hfs).
Qed.

Lemma cache_only_ret {A} (a : A) : cache_only (mret a).
Proof. intros self. by left. Qed.

Lemma cache_only_raise {A} e : cache_only (@raise A e).
Proof. intros self. by left. Qed.

Lemma cache_only_lift {A} (r : result A) : cache_only (lift r).
Proof. intros self. by left. Qed.

Lemma cache_only_getattr {A} (proj : DataClassInfo -> A) :
  cache_only (getattr proj).
Proof. intros self. by left. Qed.

Lemma cache_only_fields : cache_only fields.
Proof. intros self. by right. Qed.

Lemma cache_only_bind {A B} (m : M A) (k : A -> M B) :
  cache_only m -> (forall a, cache_only (k a)) -> cache_only (m ≫= k).
Proof.
  intros Hm Hk self. rewrite run_bind. specialize (Hm self).
  destruct (m self) as [[a|e] self']; simpl in *; [|done].
  destruct Hm as [->| ->]; [apply Hk|].
  right. destruct (Hk a (fields self).2) as [Heq|Heq]; [done|].
  by rewrite Heq, fields_again.
Qed.

Create HintDb cache_only.
#[local] Hint Resolve cache_only_ret cache_only_raise cache_only_lift
  cache_only_getattr cache_only_fields : cache_only.

Ltac cache_only_tac :=
  repeat first
    [ apply cache_only_bind; [|intros ?]
    | match goal with |- cache_only (if ?b then _ else _) => destruct b end
    | match goal with |- cache_only (match ?o with Some _ => _ | None => _ end) =>
        destruct o end
    | solve [auto with cache_only] ].

Lemma cache_only_get_field field default : cache_only (get_field field default).
Proof. unfold get_field, fieldmap. cache_only_tac. Qed.

#[local] Hint Resolve cache_only_get_field : cache_only.

(** Every operation but the [cls] setter writes the instance through
    [fields] only. *)
Lemma after_cache_only op self :
  (forall c, op <> SetCls c) ->
  after op self = self \/ after op self = (fields self).2.
Proof.
  intros Hop.
  destruct op; cbn [after];
    try (by destruct (Hop c));
    match goal with |- (?m self).2 = _ \/ _ =>
      cut (cache_only m); [intros Hm; apply Hm|] end;
    unfold cls, name_, fieldmap, required_fields, optional_fields,
      default_value, get_metadata, has_default,
      split_required_optional_fields;
    cache_only_tac.
Qed.

Lemma cls_setter_clears c self : dict_fields (cls_setter c self).2 = None.
Proof.
  destruct (dict_fields self) as [fs|] eqn:Hd.
  - by rewrite (cls_setter_cached c self fs Hd).
  - by rewrite (cls_setter_uncached c self Hd).
Qed.

(** The memoized entry appears only when an operation computes [fields]
    and the computation returns. *)
Lemma cache_filled_by_fields op self :
  dict_fields self = None ->
  is_Some (dict_fields (after op self)) ->
  exists fs, fields self = (Ok fs, after op self).
Proof.
  intros Hd [fs' Hsome].
  assert ((exists c, op = SetCls c) \/ (forall c, op <> SetCls c))
    as [[c ->]|Hop].
  { destruct op; try (right; intros c'; discriminate). left. by eexists. }
  - cbn [after] in Hsome. by rewrite cls_setter_clears in Hsome.
  - destruct (after_cache_only op self Hop) as [Heq|Heq].
    + rewrite Heq in Hsome. congruence.
    + destruct (dataclasses_fields (_cls self)) as [fs|e] eqn:Hfs.
      * exists fs. rewrite Heq, (fields_computed self fs Hd Hfs). done.
      * rewrite Heq, (fields_raises self e Hd Hfs) in Hsome. simpl in Hsome.
        congruence.
Qed.

(** ** Reassigning the wrapped class *)

(** C7. After the [cls] setter has run on a reachable inspector with a
    dataclass [c] of fields [fs'] (whether the setter returned or raised),
    the inspector wraps [c], neither the memoized list nor the dictionary
    is left, the next access to [fields] computes and returns [fs'], and
    [fieldmap] is a dictionary of the fields of [fs']: each entry is a
    field of [fs'] under its own name, the keys are the names of [fs'],
    and with distinct names every field of [fs'] is found under its
    name. *)
Theorem cls_setter_invalidates
    (self : DataClassInfo) (c : pyobject) (fs' : list Field) :
  reachable self ->
  dataclasses_fields c = Ok fs' ->
  _cls (cls_setter c self).2 = c /\
  dict_fields (cls_setter c self).2 = None /\
  _fieldmap (cls_setter c self).2 = None /\
  fields (cls_setter c self).2 =
    (Ok fs', mkInfo c (Some (dict_by_name fs')) (Some fs')) /\
  exists d : gmap string Field,
    (fieldmap (cls_setter c self).2).1 = Ok (Some d) /\
    _fieldmap (fields (cls_setter c self).2).2 = Some d /\
    (forall nm f, d !! nm = Some f -> f ∈ fs' /\ name f = nm) /\
    (forall nm, is_Some (d !! nm) <-> nm ∈ map name fs') /\
    (NoDup (map name fs') -> forall f, f ∈ fs' -> d !! name f = Some f).
Proof.
  intros Hreach Hfs.
  assert (cache_consistent (cls_setter c self).2) as Hcons.
  { apply (reachable_consistent _ (reachable_after (SetCls c) self Hreach)). }
  apply reachable_consistent in Hreach. unfold cache_consistent in Hreach.
  assert ((cls_setter c self).2 = mkInfo c None None) as Heq.
  { destruct (dict_fields self) as [fs|] eqn:Hd.
    - by rewrite (cls_setter_cached c self fs Hd).
    - rewrite (cls_setter_uncached c self Hd). simpl. by rewrite Hreach. }
  rewrite Heq in *. simpl.
  rewrite (fields_computed (mkInfo c None None) fs') by done.
  rewrite (fieldmap_spec (mkInfo c None None) fs') by done.
  do 4 (split; [done|]).
  exists (dict_by_name fs'). simpl.
  split; [done|]. split; [done|].
  split; [apply dict_by_name_Some|].
  split; [apply dict_by_name_keys|].
  intros Hnd f Hf. by apply dict_by_name_in.
Qed.

Lemma cls_setter_invalidates_witness :
  _cls (cls_setter Both (after GetFields point_info)).2 = Both /\
  dict_fields (cls_setter Both (after GetFields point_info)).2 = None /\
  _fieldmap (cls_setter Both (after GetFields point_info)).2 = None /\
  fields (cls_setter Both (after GetFields point_info)).2 =
    (Ok [field_x; field_both; field_made],
     mkInfo Both (Some (dict_by_name [field_x; field_both; field_made]))
       (Some [field_x; field_both; field_made])) /\
  exists d : gmap string Field,
    (fieldmap (cls_setter Both (after GetFields point_info)).2).1
      = Ok (Some d) /\
    _fieldmap (fields (cls_setter Both (after GetFields point_info)).2).2
      = Some d /\
    (forall nm f, d !! nm = Some f ->
       f ∈ [field_x; field_both; field_made] /\ name f = nm) /\
    (forall nm, is_Some (d !! nm) <->
       nm ∈ map name [field_x; field_both; field_made]) /\
    (NoDup (map name [field_x; field_both; field_made]) ->
     forall f, f ∈ [field_x; field_both; field_made] -> d !! name f = Some f).
Proof.
  apply (cls_setter_invalidates (after GetFields point_info) Both
           [field_x; field_both; field_made]).
  - apply (reachable_after GetFields), (reachable_init Point). reflexivity.
  - reflexivity.
Defined.

(** C8. For a reachable inspector that wraps a dataclass with distinctly
    named fields [fs], [fieldmap] returns a dictionary [d] such that
    [d[f.name]] is [f] for every field [f] of [fs], as a scan of [fs] for
    that name finds it; a lookup in [d] and a scan of [fs] agree on every
    name; the keys of [d] are the names of [fs]; and the access leaves the
    instance as an access to [fields] does, with [fs] memoized. *)
Theorem fieldmap_matches_fields (self : DataClassInfo) (fs : list Field) :
  reachable self ->
  dataclasses_fields (_cls self) = Ok fs ->
  NoDup (map name fs) ->
  exists d : gmap string Field,
    (fieldmap self).1 = Ok (Some d) /\
    (forall f, f ∈ fs -> d !! name f = Some f /\ scan (name f) fs = Some f) /\
    (forall nm, d !! nm = scan nm fs) /\
    dom d =@{gset string} list_to_set (map name fs) /\
    (fieldmap self).2 = (fields self).2 /\
    dict_fields (fieldmap self).2 = Some fs /\
    _fieldmap (fieldmap self).2 = Some d.
Proof.
  intros Hreach Hfs Hnd. apply reachable_consistent in Hreach.
  exists (dict_by_name fs).
  rewrite (fieldmap_spec self fs Hreach Hfs), (fields_spec self fs Hreach Hfs).
  simpl. repeat split.
  - by apply dict_by_name_in.
  - by apply scan_in.
  - intros nm. by apply dict_by_name_scan.
  - apply dict_by_name_dom.
Qed.

Lemma fieldmap_matches_fields_witness :
  exists d : gmap string Field,
    (fieldmap point_info).1 = Ok (Some d) /\
    (forall f, f ∈ [field_x; field_y] ->
       d !! name f = Some f /\ scan (name f) [field_x; field_y] = Some f) /\
    (forall nm, d !! nm = scan nm [field_x; field_y]) /\
    dom d =@{gset string} list_to_set (map name [field_x; field_y]) /\
    (fieldmap point_info).2 = (fields point_info).2 /\
    dict_fields (fieldmap point_info).2 = Some [field_x; field_y] /\
    _fieldmap (fieldmap point_info).2 = Some d.
Proof.
  apply (fieldmap_matches_fields point_info [field_x; field_y]).
  - apply (reachable_init Point). reflexivity.
  - reflexivity.
  - compute_done.
Defined.

(** ** Construction *)

(** C9. [DataClassInfo(cls)] raises, and then it is [TypeError], exactly
    when [cls] is not a dataclass, that is when [dataclasses.fields] does
    not accept it; on a dataclass it returns an inspector that wraps that
    very object, with nothing memoized. *)
Theorem init_type_error (c : pyobject) :
  (__init__ c = Raise TypeError <-> is_dataclass c = false) /\
  (forall e, __init__ c = Raise e -> e = TypeError) /\
  (is_dataclass c = false <-> forall fs, dataclasses_fields c <> Ok fs) /\
  (is_dataclass c = true ->
   __init__ c = Ok (mkInfo c None None) /\
   (cls (mkInfo c None None)).1 = Ok c).
Proof.
  unfold __init__, is_dataclass, dataclasses_fields.
  destruct (dunder_dataclass_fields (class_of c)) as [fs|]; simpl.
  - repeat split; try done. intros H. by destruct (H fs).
  - repeat split; try done. by intros e [= <-].
Qed.

(** ** Reassigning before [fields] was computed *)

(** C10. When the instance has no memoized ["fields"] entry, the [cls]
    setter raises [AttributeError] and leaves the instance wrapping the
    new object; the setter returns exactly when the entry exists.  A
    fresh inspector has no entry, nor has an inspector just after the
    setter ran; and an operation that makes the setter return, from an
    instance without the entry, is one in which the computation of
    [fields] returned. *)
Theorem cls_setter_needs_cache (self : DataClassInfo) (c : pyobject) :
  (dict_fields self = None ->
   cls_setter c self = (Raise AttributeError, mkInfo c (_fieldmap self) None)) /\
  ((cls_setter c self).1 = Ok tt <-> is_Some (dict_fields self)) /\
  (forall c0 self0, __init__ c0 = Ok self0 ->
   cls_setter c self0 = (Raise AttributeError, mkInfo c None None)) /\
  (forall c', (cls_setter c' (cls_setter c self).2).1 = Raise AttributeError) /\
  (forall op, dict_fields self = None ->
   (cls_setter c (after op self)).1 = Ok tt ->
   exists fs, fields self = (Ok fs, after op self)) /\
  (forall fs self', fields self = (Ok fs, self') ->
   cls_setter c self' = (Ok tt, mkInfo c None None)).
Proof.
  assert (forall s, (cls_setter c s).1 = Ok tt <-> is_Some (dict_fields s)) as Hiff.
  { intros s. destruct (dict_fields s) as [fs|] eqn:Hd.
    - rewrite (cls_setter_cached c s fs Hd). simpl. split; eauto.
    - rewrite (cls_setter_uncached c s Hd). simpl. split; [done|].
      by intros [? ?]. }
  split; [apply cls_setter_uncached|].
  split; [apply Hiff|].
  split.
  { intros c0 self0 Hinit. unfold __init__ in Hinit.
    destruct (negb (is_dataclass c0)); [done|]. by injection Hinit as <-. }
  split.
  { intros c'. by rewrite (cls_setter_uncached c' _ (cls_setter_clears c self)). }
  split.
  { intros op Hd Hok. apply Hiff in Hok. by apply cache_filled_by_fields. }
  intros fs self' Hf.
  destruct (dict_fields self) as [fs0|] eqn:Hd.
  - rewrite (fields_cached self fs0 Hd) in Hf. injection Hf as <- <-.
    by apply (cls_setter_cached c self fs0).
  - destruct (dataclasses_fields (_cls self)) as [fs1|e] eqn:Hfs.
    + rewrite (fields_computed self fs1 Hd Hfs) in Hf. injection Hf as <- <-.
      by apply (cls_setter_cached c _ fs1).
    + by rewrite (fields_raises self e Hd Hfs) in Hf.
Qed.

(** ** The example classes, evaluated *)

Example point_required : (required_fields point_info).1 = Ok [field_x].
Proof. reflexivity. Qed.

Example point_optional : (optional_fields point_info).1 = Ok [field_y].
Proof. vm_compute. reflexivity. Qed.

Example point_has_default_y : (has_default "y" point_info).1 = Ok true.
Proof. vm_compute. reflexivity. Qed.

Example point_default_value_x : (default_value 0 "x" point_info).1 = Ok MISSING.
Proof. vm_compute. reflexivity. Qed.

Example point_get_field_z :
  (get_field "z" get_field_default point_info).1 = Ok VNone.
Proof. vm_compute. reflexivity. Qed.

Example mixed_required : (required_fields mixed_info).1 = Ok [].
Proof. reflexivity. Qed.

Example mixed_optional : (optional_fields mixed_info).1 = Ok [field_made].
Proof. vm_compute. reflexivity. Qed.

Example mixed_split :
  (split_required_optional_fields mixed_info).1 =
  Ok ([field_x], [field_y; field_made]).
Proof. reflexivity. Qed.

Example both_optional :
  (optional_fields (mkInfo Both None None)).1 = Ok [field_both; field_made].
Proof. vm_compute. reflexivity. Qed.

Example made_default_value :
  (default_value 0 "made" (mkInfo Both None None)).1 = Ok (VStr "").
Proof. vm_compute. reflexivity. Qed.

Example ticker_default_values :
  (default_value 1 "tick" ticker_info).1 = Ok (VInt 1) /\
  (default_value 2 "tick" (after (CallDefaultValue 1 "tick") ticker_info)).1
    = Ok (VInt 2).
Proof. split; vm_compute; reflexivity. Qed.

Example fresh_reassign :
  cls_setter Both point_info = (Raise AttributeError, mkInfo Both None None).
Proof. reflexivity. Qed.

(** ** Further properties of the module *)

(** *** The sentinel test *)

(** X1. [is_missing] answers [True] for the [MISSING] sentinel only: its
    second test, on [type(o)], never holds, and [None] or a type object is
    not missing.  So a field has a default exactly when its default or its
    default factory is some object other than the sentinel, [None]
    included. *)
Theorem is_missing_only_sentinel (o : value) (f : Field) :
  (is_missing o = true <-> o = MISSING) /\
  is_missing (type o) = false /\
  is_missing VNone = false /\
  (field_has_default f = false <->
   default f = MISSING /\ default_factory f = MISSING).
Proof.
  split; [|split; [|split]].
  - rewrite is_missing_is_MISSING. destruct o; split; done.
  - by destruct o.
  - reflexivity.
  - apply field_has_default_false.
Qed.

(** *** The memoized list is never stale *)

Lemma cls_fields_unchanged self : _cls (fields self).2 = _cls self.
Proof.
  destruct (dict_fields self) as [fs|] eqn:Hd.
  - by rewrite (fields_cached self fs Hd).
  - destruct (dataclasses_fields (_cls self)) as [fs|e] eqn:Hfs.
    + by rewrite (fields_computed self fs Hd Hfs).
    + by rewrite (fields_raises self e Hd Hfs).
Qed.

Lemma consistent_raise_uncached self e :
  cache_consistent self ->
  dataclasses_fields (_cls self) = Raise e ->
  dict_fields self = None.
Proof.
  unfold cache_consistent. intros Hcons Hfs.
  destruct (dict_fields self) as [fs|]; [|done].
  destruct Hcons as [Hok _]. congruence.
Qed.

Lemma fields_result self :
  cache_consistent self -> (fields self).1 = dataclasses_fields (_cls self).
Proof.
  intros Hcons.
  destruct (dataclasses_fields (_cls self)) as [fs|e] eqn:Hfs.
  - by rewrite (fields_spec self fs Hcons Hfs).
  - by rewrite (fields_raises self e (consistent_raise_uncached self e Hcons Hfs) Hfs).
Qed.

(** X2. On every inspector a caller can obtain, whatever the sequence of
    operations and reassignments that led to it, [fields] gives what
    [dataclasses.fields] gives on the object wrapped now (the same list, or
    the same error); a memoized list, when there is one, is that list, and
    the dictionary is present exactly when the list is. *)
Theorem fields_never_stale (self : DataClassInfo) :
  reachable self ->
  (fields self).1 = dataclasses_fields (_cls self) /\
  (forall fs, dict_fields self = Some fs ->
     dataclasses_fields (_cls self) = Ok fs /\
     _fieldmap self = Some (dict_by_name fs)) /\
  (dict_fields self = None -> _fieldmap self = None).
Proof.
  intros Hreach. apply reachable_consistent in Hreach.
  split; [by apply fields_result|].
  unfold cache_consistent in Hreach.
  split.
  - intros fs Hd. by rewrite Hd in Hreach.
  - intros Hd. by rewrite Hd in Hreach.
Qed.

Lemma fields_never_stale_witness :
  (fields (after (SetCls Both) (after GetFields point_info))).1 =
    dataclasses_fields (_cls (after (SetCls Both) (after GetFields point_info))) /\
  (forall fs,
     dict_fields (after (SetCls Both) (after GetFields point_info)) = Some fs ->
     dataclasses_fields (_cls (after (SetCls Both) (after GetFields point_info)))
       = Ok fs /\
     _fieldmap (after (SetCls Both) (after GetFields point_info))
       = Some (dict_by_name fs)) /\
  (dict_fields (after (SetCls Both) (after GetFields point_info)) = None ->
   _fieldmap (after (SetCls Both) (after GetFields point_info)) = None).
Proof.
  apply (fields_never_stale (after (SetCls Both) (after GetFields point_info))).
  apply (reachable_after (SetCls Both)), (reachable_after GetFields),
    (reachable_init Point).
  reflexivity.
Defined.

(** *** Queries are read-only once the list is memoized *)

(** X3. No operation but the [cls] setter changes the wrapped object, and
    once the list is memoized no operation but the setter writes the
    instance at all. *)
Theorem queries_read_only (op : method) (self : DataClassInfo) :
  (forall c, op <> SetCls c) ->
  _cls (after op self) = _cls self /\
  (is_Some (dict_fields self) -> after op self = self).
Proof.
  intros Hop. destruct (after_cache_only op self Hop) as [Heq|Heq]; rewrite Heq.
  - done.
  - split; [apply cls_fields_unchanged|].
    intros [fs Hd]. by rewrite (fields_cached self fs Hd).
Qed.

Lemma queries_read_only_witness :
  _cls (after (CallDefaultValue 0 "y") (after GetFields point_info)) =
    _cls (after GetFields point_info) /\
  (is_Some (dict_fields (after GetFields point_info)) ->
   after (CallDefaultValue 0 "y") (after GetFields point_info) =
     after GetFields point_info).
Proof.
  apply (queries_read_only (CallDefaultValue 0 "y") (after GetFields point_info)).
  intros c. discriminate.
Defined.

(** *** An object that is no dataclass behind the setter *)

Lemma cls_setter_state c self :
  cache_consistent self -> (cls_setter c self).2 = mkInfo c None None.
Proof.
  unfold cache_consistent. intros Hcons.
  destruct (dict_fields self) as [fs|] eqn:Hd.
  - by rewrite (cls_setter_cached c self fs Hd).
  - rewrite (cls_setter_uncached c self Hd). simpl. by rewrite Hcons.
Qed.

Section rejected.
Context (self : DataClassInfo) (e : exn).
Hypothesis Hcons : cache_consistent self.
Hypothesis Hfs : dataclasses_fields (_cls self) = Raise e.

Lemma fields_rejected : fields self = (Raise e, self).
Proof using Hcons Hfs.
  apply fields_raises; [|done]. by apply (consistent_raise_uncached self e).
Qed.

Lemma fieldmap_rejected : fieldmap self = (Raise e, self).
Proof using Hcons Hfs.
  unfold fieldmap, getattr. rewrite run_bind. cbn beta iota.
  rewrite (consistent_raise_uncached self e Hcons Hfs).
  rewrite bool_decide_eq_false_2 by (by intros [? ?]). cbn [negb].
  rewrite !run_bind, fields_rejected. reflexivity.
Qed.

Lemma get_field_rejected field default :
  get_field field default self = (Raise e, self).
Proof using Hcons Hfs.
  unfold get_field. rewrite run_bind, fieldmap_rejected. reflexivity.
Qed.

Lemma by_fields_rejected {A} (k : list Field -> M A) :
  (fields ≫= k) self = (Raise e, self).
Proof using Hcons Hfs. rewrite run_bind, fields_rejected. reflexivity. Qed.

Lemma by_get_field_rejected {A} field default (k : value -> M A) :
  (get_field field default ≫= k) self = (Raise e, self).
Proof using Hcons Hfs. rewrite run_bind, get_field_rejected. reflexivity. Qed.
End rejected.

(** X4. The [cls] setter does not check its argument.  After it has run on
    a reachable inspector with an object that is no dataclass, the
    inspector wraps that object, and every accessor that needs the fields,
    [get_field] included, raises [TypeError] and leaves the instance as it
    is, so the error repeats. *)
Theorem cls_setter_does_not_validate
    (self : DataClassInfo) (c : pyobject) (nm : string) (default : value)
    (now : moment) :
  reachable self ->
  is_dataclass c = false ->
  (cls_setter c self).2 = mkInfo c None None /\
  fields (mkInfo c None None) = (Raise TypeError, mkInfo c None None) /\
  fieldmap (mkInfo c None None) = (Raise TypeError, mkInfo c None None) /\
  required_fields (mkInfo c None None) = (Raise TypeError, mkInfo c None None) /\
  optional_fields (mkInfo c None None) = (Raise TypeError, mkInfo c None None) /\
  split_required_optional_fields (mkInfo c None None)
    = (Raise TypeError, mkInfo c None None) /\
  get_field nm default (mkInfo c None None)
    = (Raise TypeError, mkInfo c None None) /\
  default_value now nm (mkInfo c None None)
    = (Raise TypeError, mkInfo c None None) /\
  get_metadata nm (mkInfo c None None) = (Raise TypeError, mkInfo c None None) /\
  has_default nm (mkInfo c None None) = (Raise TypeError, mkInfo c None None).
Proof.
  intros Hreach Hc. apply reachable_consistent in Hreach.
  split; [by apply cls_setter_state|].
  assert (cache_consistent (mkInfo c None None)) as Hcons by done.
  assert (dataclasses_fields (_cls (mkInfo c None None)) = Raise TypeError)
    as Hfs.
  { simpl. unfold is_dataclass in Hc. unfold dataclasses_fields.
    by destruct (dunder_dataclass_fields (class_of c)). }
  split; [by apply fields_rejected|].
  split; [by apply fieldmap_rejected|].
  split; [by apply by_fields_rejected|].
  split; [by apply by_fields_rejected|].
  split; [by apply by_fields_rejected|].
  split; [by apply get_field_rejected|].
  split; [by apply by_get_field_rejected|].
  split; by apply by_get_field_rejected.
Qed.

Lemma cls_setter_does_not_validate_witness :
  (cls_setter Plain (after GetFields point_info)).2 = mkInfo Plain None None /\
  fields (mkInfo Plain None None) = (Raise TypeError, mkInfo Plain None None) /\
  fieldmap (mkInfo Plain None None) = (Raise TypeError, mkInfo Plain None None) /\
  required_fields (mkInfo Plain None None)
    = (Raise TypeError, mkInfo Plain None None) /\
  optional_fields (mkInfo Plain None None)
    = (Raise TypeError, mkInfo Plain None None) /\
  split_required_optional_fields (mkInfo Plain None None)
    = (Raise TypeError, mkInfo Plain None None) /\
  get_field "x" VNone (mkInfo Plain None None)
    = (Raise TypeError, mkInfo Plain None None) /\
  default_value 0 "x" (mkInfo Plain None None)
    = (Raise TypeError, mkInfo Plain None None) /\
  get_metadata "x" (mkInfo Plain None None)
    = (Raise TypeError, mkInfo Plain None None) /\
  has_default "x" (mkInfo Plain None None)
    = (Raise TypeError, mkInfo Plain None None).
Proof.
  apply (cls_setter_does_not_validate (after GetFields point_info) Plain
           "x" VNone 0).
  - apply (reachable_after GetFields), (reachable_init Point). reflexivity.
  - reflexivity.
Defined.

(** *** Memoization does not change the answers *)

(** X5. Two reachable inspectors that wrap the same object give the same
    outcome (the same value, or the same error) for every accessor that
    calls no user code, whatever was memoized in each.  ([default_value] is
    left out: it calls the default factory, which may answer differently
    at each call.) *)
Theorem memoization_transparent
    (s1 s2 : DataClassInfo) (nm : string) (default : value) :
  reachable s1 ->
  reachable s2 ->
  _cls s1 = _cls s2 ->
  (name_ s1).1 = (name_ s2).1 /\
  (fields s1).1 = (fields s2).1 /\
  (fieldmap s1).1 = (fieldmap s2).1 /\
  (required_fields s1).1 = (required_fields s2).1 /\
  (optional_fields s1).1 = (optional_fields s2).1 /\
  (split_required_optional_fields s1).1 =
    (split_required_optional_fields s2).1 /\
  (get_field nm default s1).1 = (get_field nm default s2).1 /\
  (get_metadata nm s1).1 = (get_metadata nm s2).1 /\
  (has_default nm s1).1 = (has_default nm s2).1.
Proof.
  intros H1%reachable_consistent H2%reachable_consistent Hcls.
  split; [unfold name_, getattr, lift; rewrite !run_bind; simpl; by rewrite Hcls|].
  destruct (dataclasses_fields (_cls s1)) as [fs|e] eqn:Hfs1.
  - assert (dataclasses_fields (_cls s2) = Ok fs) as Hfs2 by (by rewrite <-Hcls).
    assert (loaded s1 fs = loaded s2 fs) as Hl by (unfold loaded; by rewrite Hcls).
    rewrite (fields_spec s1 fs H1 Hfs1), (fields_spec s2 fs H2 Hfs2).
    rewrite (fieldmap_spec s1 fs H1 Hfs1), (fieldmap_spec s2 fs H2 Hfs2).
    rewrite (required_fields_spec s1 fs H1 Hfs1), (required_fields_spec s2 fs H2 Hfs2).
    rewrite (optional_fields_spec s1 fs H1 Hfs1), (optional_fields_spec s2 fs H2 Hfs2).
    rewrite (split_required_optional_fields_spec s1 fs H1 Hfs1),
      (split_required_optional_fields_spec s2 fs H2 Hfs2).
    rewrite (get_field_spec s1 fs H1 Hfs1), (get_field_spec s2 fs H2 Hfs2).
    unfold get_metadata, has_default.
    rewrite !run_bind.
    rewrite !(get_field_spec s1 fs H1 Hfs1), !(get_field_spec s2 fs H2 Hfs2).
    rewrite Hl. done.
  - assert (dataclasses_fields (_cls s2) = Raise e) as Hfs2 by (by rewrite <-Hcls).
    rewrite (fields_rejected s1 e H1 Hfs1), (fields_rejected s2 e H2 Hfs2).
    rewrite (fieldmap_rejected s1 e H1 Hfs1), (fieldmap_rejected s2 e H2 Hfs2).
    rewrite (get_field_rejected s1 e H1 Hfs1), (get_field_rejected s2 e H2 Hfs2).
    unfold required_fields, optional_fields, split_required_optional_fields,
      get_metadata, has_default.
    rewrite !(by_fields_rejected s1 e H1 Hfs1), !(by_fields_rejected s2 e H2 Hfs2).
    rewrite !(by_get_field_rejected s1 e H1 Hfs1),
      !(by_get_field_rejected s2 e H2 Hfs2).
    done.
Qed.

Lemma memoization_transparent_witness :
  (name_ point_info).1 = (name_ (after GetFields point_info)).1 /\
  (fields point_info).1 = (fields (after GetFields point_info)).1 /\
  (fieldmap point_info).1 = (fieldmap (after GetFields point_info)).1 /\
  (required_fields point_info).1 =
    (required_fields (after GetFields point_info)).1 /\
  (optional_fields point_info).1 =
    (optional_fields (after GetFields point_info)).1 /\
  (split_required_optional_fields point_info).1 =
    (split_required_optional_fields (after GetFields point_info)).1 /\
  (get_field "y" VNone point_info).1 =
    (get_field "y" VNone (after GetFields point_info)).1 /\
  (get_metadata "y" point_info).1 =
    (get_metadata "y" (after GetFields point_info)).1 /\
  (has_default "y" point_info).1 =
    (has_default "y" (after GetFields point_info)).1.
Proof.
  apply (memoization_transparent point_info (after GetFields point_info)
           "y" VNone).
  - apply (reachable_init Point). reflexivity.
  - apply (reachable_after GetFields), (reachable_init Point). reflexivity.
  - reflexivity.
Defined.

(** *** Required and optional fields against the split *)

Lemma filter_Forall_all {A} (P : A -> Prop) `{!forall x, Decision (P x)}
    (l : list A) :
  Forall P l -> filter P l = l.
Proof.
  induction 1 as [|x l Hx _ IH]; [done|].
  by rewrite filter_cons_True, IH.
Qed.

Lemma filter_Forall_none {A} (P Q : A -> Prop) `{!forall x, Decision (P x)}
    (l : list A) :
  (forall x, Q x -> ~ P x) -> Forall Q l -> filter P l = [].
Proof.
  intros HQ. induction 1 as [|x l Hx _ IH]; [done|].
  rewrite filter_cons_False; [done | by apply HQ].
Qed.

Lemma filter_nil_Forall {A} (P : A -> Prop) `{!forall x, Decision (P x)}
    (l : list A) :
  filter P l = [] -> Forall (fun x => ~ P x) l.
Proof.
  intros Hnil. apply Forall_forall. intros x Hx HP.
  by apply (filter_nil_not_elem_of P l x).
Qed.

Lemma required_loop_ordered l1 l2 :
  Forall (fun f => field_has_default f = false) l1 ->
  Forall (fun f => field_has_default f = true) l2 ->
  required_loop [] (l1 ++ l2) = l1.
Proof.
  intros H1 H2. induction H1 as [|f l1 Hf _ IH].
  - destruct H2 as [|d l2 Hd _]; [done|]. simpl. by rewrite Hd.
  - rewrite <-app_comm_cons, required_loop_cons, Hf. by rewrite IH.
Qed.

Lemma optional_loop_ordered l1 l2 :
  Forall (fun f => field_has_default f = true) l1 ->
  Forall (fun f => field_has_default f = false) l2 ->
  optional_loop [] (l1 ++ l2) = l1.
Proof.
  intros H1 H2. induction H1 as [|f l1 Hf _ IH].
  - destruct H2 as [|d l2 Hd _]; [done|]. simpl. by rewrite Hd.
  - rewrite <-app_comm_cons, optional_loop_cons, Hf. by rewrite IH.
Qed.

Lemma required_loop_prefix_filter fs :
  required_loop [] fs `prefix_of`
  filter (fun f => field_has_default f = false) fs.
Proof.
  induction fs as [|f fs IH]; [done|].
  rewrite required_loop_cons. destruct (field_has_default f) eqn:Hf.
  - apply prefix_nil.
  - rewrite filter_cons_True by done. by apply prefix_cons.
Qed.

Lemma optional_loop_prefix_filter fs :
  optional_loop [] fs `prefix_of`
  filter (fun f => field_has_default f = true) fs.
Proof.
  induction fs as [|f fs IH]; [done|].
  rewrite optional_loop_cons. destruct (field_has_default f) eqn:Hf.
  - rewrite filter_cons_True by done. by apply prefix_cons.
  - apply prefix_nil.
Qed.

(** The declaration order that dataclasses ask for: the fields without a
    default, then the fields with one. *)
Lemma ordered_loops l1 l2 :
  Forall (fun f => field_has_default f = false) l1 ->
  Forall (fun f => field_has_default f = true) l2 ->
  required_loop [] (l1 ++ l2) = l1 /\
  reverse (optional_loop [] (reverse (l1 ++ l2))) = l2.
Proof.
  intros H1 H2. split; [by apply required_loop_ordered|].
  rewrite reverse_app, optional_loop_ordered;
    [apply reverse_involutive | by apply Forall_reverse | by apply Forall_reverse].
Qed.

(** X6. For a reachable inspector that wraps a dataclass with fields [fs]:
    [required_fields] is a prefix of the first list of
    [split_required_optional_fields()] and [optional_fields] a suffix of
    the second; the two properties give the split exactly when together
    they make up [fs]; and they do so whenever [fs] declares its fields
    without a default before its fields with one. *)
Theorem required_optional_within_split (self : DataClassInfo) (fs : list Field) :
  reachable self ->
  dataclasses_fields (_cls self) = Ok fs ->
  exists req opt sreq sopt,
    (required_fields self).1 = Ok req /\
    (optional_fields self).1 = Ok opt /\
    (split_required_optional_fields self).1 = Ok (sreq, sopt) /\
    req `prefix_of` sreq /\
    opt `suffix_of` sopt /\
    ((req, opt) = (sreq, sopt) <-> fs = req ++ opt) /\
    (forall l1 l2, fs = l1 ++ l2 ->
       Forall (fun f => field_has_default f = false) l1 ->
       Forall (fun f => field_has_default f = true) l2 ->
       req = l1 /\ opt = l2).
Proof.
  intros Hreach Hfs. apply reachable_consistent in Hreach.
  eexists _, _, _, _.
  rewrite (required_fields_spec self fs Hreach Hfs),
    (optional_fields_spec self fs Hreach Hfs),
    (split_required_optional_fields_spec self fs Hreach Hfs),
    split_loop_filter.
  simpl. split; [done|]. split; [done|]. split; [done|].
  split; [apply required_loop_prefix_filter|].
  split.
  { apply suffix_prefix_reverse. rewrite reverse_involutive, <-filter_reverse.
    apply optional_loop_prefix_filter. }
  destruct (required_loop_split fs) as (rest & Heq & Hreq & _).
  destruct (optional_loop_split (reverse fs)) as (tser & Heqo & Hopt & _).
  apply Forall_reverse in Hopt.
  split; [split|].
  - intros [= Hr Ho].
    assert (Forall (fun f => field_has_default f = true) rest) as Hrest.
    { assert (filter (fun f => field_has_default f = false) fs =
              required_loop [] fs ++
              filter (fun f => field_has_default f = false) rest) as Hsplit.
      { rewrite Heq at 1. by rewrite filter_app, (filter_Forall_all _ _ Hreq). }
      assert (required_loop [] fs ++ [] =
              required_loop [] fs ++
              filter (fun f => field_has_default f = false) rest) as Hnil.
      { rewrite app_nil_r. congruence. }
      apply app_inv_head in Hnil. symmetry in Hnil.
      apply filter_nil_Forall in Hnil. eapply Forall_impl; [exact Hnil|].
      intros f Hf. simpl in Hf. by destruct (field_has_default f). }
    destruct (ordered_loops _ _ Hreq Hrest) as [_ Hopt'].
    rewrite <-Heq in Hopt'. rewrite Hopt'. exact Heq.
  - intros Hcat. rewrite Hcat at 3 4. rewrite !filter_app.
    rewrite (filter_Forall_all _ _ Hreq), (filter_Forall_all _ _ Hopt).
    rewrite (filter_Forall_none (fun f => field_has_default f = false)
               (fun f => field_has_default f = true) _) by (done || congruence).
    rewrite (filter_Forall_none (fun f => field_has_default f = true)
               (fun f => field_has_default f = false) _) by (done || congruence).
    by rewrite app_nil_r.
  - intros l1 l2 -> H1 H2. by apply ordered_loops.
Qed.

Lemma required_optional_within_split_witness :
  exists req opt sreq sopt,
    (required_fields mixed_info).1 = Ok req /\
    (optional_fields mixed_info).1 = Ok opt /\
    (split_required_optional_fields mixed_info).1 = Ok (sreq, sopt) /\
    req `prefix_of` sreq /\
    opt `suffix_of` sopt /\
    ((req, opt) = (sreq, sopt) <-> [field_y; field_x; field_made] = req ++ opt) /\
    (forall l1 l2, [field_y; field_x; field_made] = l1 ++ l2 ->
       Forall (fun f => field_has_default f = false) l1 ->
       Forall (fun f => field_has_default f = true) l2 ->
       req = l1 /\ opt = l2).
Proof.
  apply (required_optional_within_split mixed_info
           [field_y; field_x; field_made]).
  - apply (reachable_init Mixed). reflexivity.
  - reflexivity.
Defined.

(** *** [has_default] against [default_value] and the split *)

Lemma field_no_default_value (now : moment) (f : Field) :
  field_has_default f = false -> field_default_value now f = Ok MISSING.
Proof.
  unfold field_has_default, field_default_value.
  destruct (is_missing (default f)), (is_missing (default_factory f)); done.
Qed.

Lemma field_value_has_default (now : moment) (f : Field) (v : value) :
  field_default_value now f = Ok v -> v <> MISSING ->
  field_has_default f = true.
Proof.
  intros Hv Hne. destruct (field_has_default f) eqn:Hf; [done|].
  rewrite (field_no_default_value now f Hf) in Hv. congruence.
Qed.

(** X7. For a field [f] of a reachable inspector's dataclass (distinct
    field names): when [has_default(f.name)] is [False],
    [default_value(f.name)] returns [MISSING]; when
    [default_value(f.name)] returns anything but [MISSING],
    [has_default(f.name)] is [True]; [has_default(f.name)] tells in which
    list of [split_required_optional_fields()] the field is; and a field
    of [required_fields] has no default, a field of [optional_fields] has
    one. *)
Theorem has_default_agrees
    (self : DataClassInfo) (fs : list Field) (f : Field) (now : moment) :
  reachable self ->
  dataclasses_fields (_cls self) = Ok fs ->
  NoDup (map name fs) ->
  f ∈ fs ->
  exists b req opt sreq sopt,
    (has_default (name f) self).1 = Ok b /\
    (required_fields self).1 = Ok req /\
    (optional_fields self).1 = Ok opt /\
    (split_required_optional_fields self).1 = Ok (sreq, sopt) /\
    (b = false -> (default_value now (name f) self).1 = Ok MISSING) /\
    (forall v, (default_value now (name f) self).1 = Ok v -> v <> MISSING ->
               b = true) /\
    (b = true <-> f ∈ sopt) /\
    (b = false <-> f ∈ sreq) /\
    (f ∈ req -> b = false) /\
    (f ∈ opt -> b = true).
Proof.
  intros Hreach Hfs Hnd Hf. apply reachable_consistent in Hreach.
  eexists _, _, _, _, _.
  rewrite (has_default_known self fs Hreach Hfs f Hnd Hf),
    (default_value_known self fs Hreach Hfs f Hnd Hf now),
    (required_fields_spec self fs Hreach Hfs),
    (optional_fields_spec self fs Hreach Hfs),
    (split_required_optional_fields_spec self fs Hreach Hfs),
    split_loop_filter.
  simpl. do 4 (split; [done|]).
  split; [apply field_no_default_value|].
  split; [apply field_value_has_default|].
  split; [rewrite list_elem_of_filter; naive_solver|].
  split; [rewrite list_elem_of_filter; naive_solver|].
  split.
  - destruct (required_loop_split fs) as (rest & _ & Hall & _).
    intros Hin. by apply (proj1 (Forall_forall _ _) Hall f).
  - destruct (optional_loop_split (reverse fs)) as (tser & _ & Hall & _).
    apply Forall_reverse in Hall.
    intros Hin. by apply (proj1 (Forall_forall _ _) Hall f).
Qed.

Lemma has_default_agrees_witness :
  exists b req opt sreq sopt,
    (has_default (name field_made) mixed_info).1 = Ok b /\
    (required_fields mixed_info).1 = Ok req /\
    (optional_fields mixed_info).1 = Ok opt /\
    (split_required_optional_fields mixed_info).1 = Ok (sreq, sopt) /\
    (b = false ->
     (default_value 0 (name field_made) mixed_info).1 = Ok MISSING) /\
    (forall v, (default_value 0 (name field_made) mixed_info).1 = Ok v ->
               v <> MISSING -> b = true) /\
    (b = true <-> field_made ∈ sopt) /\
    (b = false <-> field_made ∈ sreq) /\
    (field_made ∈ req -> b = false) /\
    (field_made ∈ opt -> b = true).
Proof.
  apply (has_default_agrees mixed_info [field_y; field_x; field_made]
           field_made 0).
  - apply (reachable_init Mixed). reflexivity.
  - reflexivity.
  - compute_done.
  - apply list_elem_of_further, list_elem_of_further, list_elem_of_here.
Defined.

(** *** An inspector on a dataclass instance *)

(** X8. The constructor takes an instance of a dataclass as it takes the
    class.  On a reachable inspector that wraps such an instance the
    [name] property raises [AttributeError]; so for a name of no field
    [has_default], [default_value] and [get_metadata] raise
    [AttributeError], not [KeyError], while [get_field] still returns its
    default. *)
Theorem instance_unknown_field
    (self : DataClassInfo) (c : classdef) (fs : list Field)
    (nm : string) (default : value) (now : moment) :
  reachable self ->
  _cls self = PyInstance c ->
  dunder_dataclass_fields c = Some fs ->
  nm ∉ map name fs ->
  __init__ (PyInstance c) = Ok (mkInfo (PyInstance c) None None) /\
  (name_ self).1 = Raise AttributeError /\
  (get_field nm default self).1 = Ok default /\
  (has_default nm self).1 = Raise AttributeError /\
  (default_value now nm self).1 = Raise AttributeError /\
  (get_metadata nm self).1 = Raise AttributeError.
Proof.
  intros Hreach Hcls Hc Hnm. apply reachable_consistent in Hreach.
  assert (dataclasses_fields (_cls self) = Ok fs) as Hfs.
  { rewrite Hcls. unfold dataclasses_fields. simpl. by rewrite Hc. }
  split; [unfold __init__, is_dataclass; simpl; by rewrite Hc|].
  split; [unfold name_, getattr, lift; rewrite run_bind; simpl; by rewrite Hcls|].
  rewrite (get_field_unknown self fs Hreach Hfs nm Hnm),
    (has_default_unknown self fs Hreach Hfs nm Hnm),
    (default_value_unknown self fs Hreach Hfs nm Hnm now),
    (get_metadata_unknown self fs Hreach Hfs nm Hnm).
  rewrite Hcls. by simpl.
Qed.

Lemma instance_unknown_field_witness :
  __init__ a_point = Ok (mkInfo a_point None None) /\
  (name_ (mkInfo a_point None None)).1 = Raise AttributeError /\
  (get_field "z" VNone (mkInfo a_point None None)).1 = Ok VNone /\
  (has_default "z" (mkInfo a_point None None)).1 = Raise AttributeError /\
  (default_value 0 "z" (mkInfo a_point None None)).1 = Raise AttributeError /\
  (get_metadata "z" (mkInfo a_point None None)).1 = Raise AttributeError.
Proof.
  apply (instance_unknown_field (mkInfo a_point None None)
           (mkClass "Point" (Some [field_x; field_y])) [field_x; field_y]
           "z" VNone 0).
  - apply (reachable_init a_point). reflexivity.
  - reflexivity.
  - reflexivity.
  - compute_done.
Defined.

(** *** What the dictionary holds *)


(** X9. For a reachable inspector that wraps a dataclass with fields [fs]
    (whether or not the names are distinct), every entry of [fieldmap] is a
    field of [fs] stored under its own name, and a name is a key exactly
    when it is the name of a field of [fs]; so what [get_field] returns is
    its default or a field of that name.  With distinct names the
    dictionary has as many entries as [fields] has fields. *)
Theorem fieldmap_entries (self : DataClassInfo) (fs : list Field) :
  reachable self ->
  dataclasses_fields (_cls self) = Ok fs ->
  exists d : gmap string Field,
    (fieldmap self).1 = Ok (Some d) /\
    (fields self).1 = Ok fs /\
    (forall nm f, d !! nm = Some f -> f ∈ fs /\ name f = nm) /\
    (forall nm, is_Some (d !! nm) <-> nm ∈ map name fs) /\
    (forall nm default,
       (get_field nm default self).1 = Ok default \/
       exists f, (get_field nm default self).1 = Ok (VField f) /\
                 f ∈ fs /\ name f = nm) /\
    (NoDup (map name fs) -> size d = length fs).
Proof.
  intros Hreach Hfs. apply reachable_consistent in Hreach.
  exists (dict_by_name fs).
  rewrite (fieldmap_spec self fs Hreach Hfs), (fields_spec self fs Hreach Hfs).
  simpl. split; [done|]. split; [done|].
  assert (forall nm f, dict_by_name fs !! nm = Some f -> f ∈ fs /\ name f = nm)
    as Hentry.
  { intros nm f Hlook. apply foldl_setitem_Some in Hlook as [?|Hempty]; [done|].
    by rewrite lookup_empty in Hempty. }
  split; [exact Hentry|].
  split.
  { intros nm. rewrite <-elem_of_dom, dict_by_name_dom. set_solver. }
  split.
  { intros nm default. rewrite (get_field_spec self fs Hreach Hfs). simpl.
    destruct (dict_by_name fs !! nm) as [f|] eqn:Hlook; [|by left].
    right. exists f. split; [done|]. by apply Hentry. }
  intros Hnd. rewrite <-size_dom, dict_by_name_dom.
  rewrite size_list_to_set by done. by rewrite length_map.
Qed.

Lemma fieldmap_entries_witness :
  exists d : gmap string Field,
    (fieldmap mixed_info).1 = Ok (Some d) /\
    (fields mixed_info).1 = Ok [field_y; field_x; field_made] /\
    (forall nm f, d !! nm = Some f ->
       f ∈ [field_y; field_x; field_made] /\ name f = nm) /\
    (forall nm, is_Some (d !! nm) <->
       nm ∈ map name [field_y; field_x; field_made]) /\
    (forall nm default,
       (get_field nm default mixed_info).1 = Ok default \/
       exists f, (get_field nm default mixed_info).1 = Ok (VField f) /\
                 f ∈ [field_y; field_x; field_made] /\ name f = nm) /\
    (NoDup (map name [field_y; field_x; field_made]) ->
     size d = length [field_y; field_x; field_made]).
Proof.
  apply (fieldmap_entries mixed_info [field_y; field_x; field_made]).
  - apply (reachable_init Mixed). reflexivity.
  - reflexivity.
Defined.
